(** * tech_api: the live-messaging core

    A shallow embedding of the connection registry
    ([websocket/connection_manager.py]), of the permission check of
    [services/websocket_service.py], of the frame decoders and of the
    legacy socket handler ([websocket/websocket.py]), with the properties
    the specification states about them.

    Python dictionaries are [gmap]s, Python sets are [gset]s, [str] is
    [string].  A [WebSocket] object is known by its identity only. *)

From Stdlib Require Import ZArith String List Lia.
From stdpp Require Import base option gmap sets list strings fin_maps fin_sets.

Open Scope string_scope.
Open Scope list_scope.
Set Warnings "-register-all,-clear-no-such-hyp".
(* the membership solver clears names that may be absent *)

(** ** Python values that cross the wire *)

Inductive pyval :=
| PNone
| PBool (b : bool)
| PInt (z : Z)
| PFloat (bits : Z)
| PStr (s : string)
| PList (l : list pyval)
| PDict (d : list (string * pyval)).

(** Truth value of a Python object ([if x:], [not x]). *)
Definition py_truthy (v : pyval) : bool :=
  match v with
  | PNone => false
  | PBool b => b
  | PInt z => negb (z =? 0)%Z
  | PFloat b => negb (b =? 0)%Z
  | PStr s => negb (String.eqb s "")
  | PList l => match l with [] => false | _ => true end
  | PDict d => match d with [] => false | _ => true end
  end.

(** Truth value of an optional string: [None] and [""] are false. *)
Definition str_truthy (o : option string) : bool :=
  match o with
  | None => false
  | Some s => negb (String.eqb s "")
  end.

(** A live transport handle, compared by object identity. *)
Definition WebSocket := positive.

(** One attempt to push a frame through a transport handle.  [att_ok] is
    false when [send_text] raised. *)
Record attempt := Attempt { att_ws : WebSocket; att_frame : pyval; att_ok : bool }.

(** The behaviour of the transports: whether the [n]-th send of the run,
    addressed to handle [ws], goes through. *)
Definition transport := nat -> WebSocket -> bool.

(** ** ConnectionManager (websocket/connection_manager.py) *)

Module Registry.

Record ConnectionManager := Manager {
  active_connections : gmap string WebSocket;
  chat_participants : gmap string (gset string);
  user_chats : gmap string (gset string);
  typing_status : gmap string (gset string);
  typing_timestamps : gmap string (gmap string Z)
}.

(** [ConnectionManager.__init__] *)
Definition init : ConnectionManager :=
  Manager ∅ ∅ ∅ ∅ ∅.

(** [d.get(k, set())] *)
Definition members (d : gmap string (gset string)) (k : string) : gset string :=
  default ∅ (d !! k).

(** [if k not in d: d[k] = set()] followed by [d[k].add(x)] *)
Definition add_to (k x : string) (d : gmap string (gset string)) : gmap string (gset string) :=
  <[k := members d k ∪ {[x]}]> d.

(** [if k in d: d[k].discard(x); if not d[k]: del d[k]] *)
Definition discard_from (k x : string) (d : gmap string (gset string)) : gmap string (gset string) :=
  match d !! k with
  | Some X =>
      let X' := X ∖ {[x]} in
      if decide (X' = ∅) then delete k d else <[k := X']> d
  | None => d
  end.

(** [if u in tt: tt[u].pop(c, None); if not tt[u]: del tt[u]] *)
Definition pop_timestamp (u c : string) (tt : gmap string (gmap string Z)) : gmap string (gmap string Z) :=
  match tt !! u with
  | Some d =>
      let d' := delete c d in
      if decide (d' = ∅) then delete u tt else <[u := d']> tt
  | None => tt
  end.

(** [tt[u][c]] when both keys are present. *)
Definition timestamp_of (tt : gmap string (gmap string Z)) (u c : string) : option Z :=
  tt !! u ≫= (λ d, d !! c).

Definition join_chat (user_id chat_id : string) (s : ConnectionManager) : ConnectionManager :=
  Manager (active_connections s)
          (add_to chat_id user_id (chat_participants s))
          (add_to user_id chat_id (user_chats s))
          (typing_status s)
          (typing_timestamps s).

Definition leave_chat (user_id chat_id : string) (s : ConnectionManager) : ConnectionManager :=
  Manager (active_connections s)
          (discard_from chat_id user_id (chat_participants s))
          (discard_from user_id chat_id (user_chats s))
          (discard_from chat_id user_id (typing_status s))
          (pop_timestamp user_id chat_id (typing_timestamps s)).

(** [datetime.utcnow()] is the argument [now], in microseconds. *)
Definition set_typing_status (now : Z) (user_id chat_id : string) (is_typing : bool)
    (s : ConnectionManager) : ConnectionManager :=
  if is_typing then
    Manager (active_connections s) (chat_participants s) (user_chats s)
            (add_to chat_id user_id (typing_status s))
            (<[user_id := <[chat_id := now]> (default ∅ (typing_timestamps s !! user_id))]>
               (typing_timestamps s))
  else
    Manager (active_connections s) (chat_participants s) (user_chats s)
            (discard_from chat_id user_id (typing_status s))
            (pop_timestamp user_id chat_id (typing_timestamps s)).

(** The typing clean-up loop of [disconnect]: for every chat of
    [typing_timestamps[user_id]], drop the user from that chat's typing
    set. *)
Definition purge_typing (user_id : string) (chats : list string)
    (ts : gmap string (gset string)) : gmap string (gset string) :=
  foldl (λ ts chat_id, discard_from chat_id user_id ts) ts chats.

Definition disconnect (user_id : string) (s : ConnectionManager) : ConnectionManager :=
  let s1 := Manager (delete user_id (active_connections s))
                    (chat_participants s) (user_chats s)
                    (typing_status s) (typing_timestamps s) in
  let chats := elements (members (user_chats s1) user_id) in
  let s2 := foldl (λ s chat_id, leave_chat user_id chat_id s) s1 chats in
  match typing_timestamps s2 !! user_id with
  | Some d =>
      Manager (active_connections s2) (chat_participants s2) (user_chats s2)
              (purge_typing user_id (elements (dom d)) (typing_status s2))
              (delete user_id (typing_timestamps s2))
  | None => s2
  end.

(** [connect]: [websocket.accept()] succeeded; the entry of the user is
    overwritten. *)
Definition connect (websocket : WebSocket) (user_id : string)
    (s : ConnectionManager) : ConnectionManager :=
  Manager (<[user_id := websocket]> (active_connections s))
          (chat_participants s) (user_chats s)
          (typing_status s) (typing_timestamps s).

(** [send_personal_message]: [True] when the frame went out; a transport
    failure runs [disconnect] on the spot. *)
Definition send_personal_message (tx : transport) (user_id : string) (data : pyval)
    (s : ConnectionManager) (log : list attempt)
    : bool * ConnectionManager * list attempt :=
  match active_connections s !! user_id with
  | None => (false, s, log)
  | Some websocket =>
      if tx (List.length log) websocket
      then (true, s, log ++ [Attempt websocket data true])
      else (false, disconnect user_id s, log ++ [Attempt websocket data false])
  end.

(** One turn of the sending loop of [broadcast_to_chat]; the third
    component is the list [disconnected_users]. *)
Definition broadcast_step (tx : transport) (data : pyval)
    (acc : ConnectionManager * list attempt * list string) (user_id : string)
    : ConnectionManager * list attempt * list string :=
  let '(s, log, disconnected_users) := acc in
  let '(success, s', log') := send_personal_message tx user_id data s log in
  (s', log', if success then disconnected_users else disconnected_users ++ [user_id]).

(** The set the sending loop runs over: a copy of the chat's members,
    less [exclude_user] when that argument is truthy. *)
Definition broadcast_targets (chat_id : string) (exclude_user : option string)
    (s : ConnectionManager) : gset string :=
  let participants := members (chat_participants s) chat_id in
  if str_truthy exclude_user
  then participants ∖ {[default "" exclude_user]}
  else participants.

(** [broadcast_to_chat]; the first component is the value the coroutine
    returns. *)
Definition broadcast_to_chat (tx : transport) (chat_id : string) (data : pyval)
    (exclude_user : option string) (s : ConnectionManager) (log : list attempt)
    : pyval * ConnectionManager * list attempt :=
  let participants := broadcast_targets chat_id exclude_user s in
  if decide (participants = ∅) then (PNone, s, log)
  else
    let '(s1, log1, disconnected_users) :=
      foldl (broadcast_step tx data) (s, log, []) (elements participants) in
    let s2 := foldl (λ s user_id, leave_chat user_id chat_id s) s1 disconnected_users in
    (PNone, s2, log1).

(** [time_diff.total_seconds() <= expiry_seconds], on microsecond
    instants. *)
Definition within_expiry (now t expiry_seconds : Z) : bool :=
  (now - t <=? expiry_seconds * 1000000)%Z.

(** The test of the first loop of [get_typing_users] on one user:
    [Some true] for a timestamp within the bound, [Some false] for an
    older one, [None] when the user has no timestamp for the chat. *)
Definition typing_fresh (now : Z) (chat_id : string) (expiry_seconds : Z)
    (s : ConnectionManager) (user_id : string) : option bool :=
  (λ t, within_expiry now t expiry_seconds) <$>
    timestamp_of (typing_timestamps s) user_id chat_id.

(** The users that end up in [active_typing_users]. *)
Definition active_typing (now : Z) (chat_id : string) (expiry_seconds : Z)
    (s : ConnectionManager) (users : list string) : list string :=
  filter (λ user_id, typing_fresh now chat_id expiry_seconds s user_id = Some true) users.

(** The users that end up in [expired_users]. *)
Definition expired_typing (now : Z) (chat_id : string) (expiry_seconds : Z)
    (s : ConnectionManager) (users : list string) : list string :=
  filter (λ user_id, typing_fresh now chat_id expiry_seconds s user_id = Some false) users.

Definition get_typing_users (now : Z) (chat_id : string) (expiry_seconds : Z)
    (s : ConnectionManager) : list string * ConnectionManager :=
  match typing_status s !! chat_id with
  | None => ([], s)
  | Some X =>
      let users := elements X in
      let active_typing_users := active_typing now chat_id expiry_seconds s users in
      let expired_users := expired_typing now chat_id expiry_seconds s users in
      (active_typing_users,
       foldl (λ s user_id, set_typing_status now user_id chat_id false s) s expired_users)
  end.

(** The mutators of the two membership indices. *)
Inductive index_op :=
| Join (user_id chat_id : string)
| Leave (user_id chat_id : string)
| Disconnect (user_id : string).

Definition apply_index_op (s : ConnectionManager) (o : index_op) : ConnectionManager :=
  match o with
  | Join u c => join_chat u c s
  | Leave u c => leave_chat u c s
  | Disconnect u => disconnect u s
  end.

(** Every entry point of the manager that changes its state. *)
Inductive op :=
| OpConnect (websocket : WebSocket) (user_id : string)
| OpIndex (o : index_op)
| OpSetTyping (now : Z) (user_id chat_id : string) (is_typing : bool)
| OpGetTyping (now : Z) (chat_id : string) (expiry_seconds : Z)
| OpSend (tx : transport) (user_id : string) (data : pyval)
| OpBroadcast (tx : transport) (chat_id : string) (data : pyval) (exclude_user : option string).

Definition apply_op (w : ConnectionManager * list attempt) (o : op)
    : ConnectionManager * list attempt :=
  let '(s, log) := w in
  match o with
  | OpConnect ws u => (connect ws u s, log)
  | OpIndex o => (apply_index_op s o, log)
  | OpSetTyping now u c b => (set_typing_status now u c b s, log)
  | OpGetTyping now c e => ((get_typing_users now c e s).2, log)
  | OpSend tx u data =>
      let '(_, s', log') := send_personal_message tx u data s log in (s', log')
  | OpBroadcast tx c data ex =>
      let '(_, s', log') := broadcast_to_chat tx c data ex s log in (s', log')
  end.

Definition run (ops : list op) : ConnectionManager * list attempt :=
  foldl apply_op (init, []) ops.

(** States the manager can be in. *)
Definition reachable (s : ConnectionManager) : Prop :=
  ∃ ops, (run ops).1 = s.

(** The forward index and the inverse index agree. *)
Definition indices_consistent (s : ConnectionManager) : Prop :=
  ∀ u c, u ∈ members (chat_participants s) c ↔ c ∈ members (user_chats s) u.

(** The typing sets and the typing timestamps agree. *)
Definition typing_consistent (s : ConnectionManager) : Prop :=
  ∀ u c, u ∈ members (typing_status s) c ↔ is_Some (timestamp_of (typing_timestamps s) u c).

(** The frames that reached the transport of [websocket]. *)
Definition delivered_to_ws (websocket : WebSocket) (log : list attempt) : list pyval :=
  att_frame <$> filter (λ a, att_ws a = websocket ∧ att_ok a = true) log.

(** Both agreements at once. *)
Definition well_formed (s : ConnectionManager) : Prop :=
  indices_consistent s ∧ typing_consistent s.

(** A sample state: alice and bob are connected and have joined the chat
    "room". *)
Definition duo : ConnectionManager :=
  join_chat "bob" "room" (join_chat "alice" "room" (connect 2%positive "bob" (connect 1%positive "alice" init))).

(** Sample transports: every send goes through; the sends to handle 1
    fail. *)
Definition all_up : transport := λ _ _, true.
Definition one_down : transport := λ _ ws, negb (Pos.eqb ws 1).


Definition get_user_chats (user_id : string) (s : ConnectionManager) : gset string :=
  members (user_chats s) user_id.

(** [is_user_online]: [user_id in self.active_connections] *)
Definition is_user_online (user_id : string) (s : ConnectionManager) : bool :=
  bool_decide (is_Some (active_connections s !! user_id)).

(** [get_online_users]: [list(self.active_connections.keys())] *)
Definition get_online_users (s : ConnectionManager) : list string :=
  (map_to_list (active_connections s)).*1.


(** One turn of the loop of [broadcast_to_all]: the excluded user is
    skipped with [continue]. *)
Definition broadcast_all_step (tx : transport) (data : pyval) (exclude_user : option string)
    (acc : ConnectionManager * list attempt * list string) (user_id : string)
    : ConnectionManager * list attempt * list string :=
  if str_truthy exclude_user && bool_decide (Some user_id = exclude_user)
  then acc
  else broadcast_step tx data acc user_id.

(** [broadcast_to_all]; the loop runs over the keys the dictionary had
    when it started. *)
Definition broadcast_to_all (tx : transport) (data : pyval) (exclude_user : option string)
    (s : ConnectionManager) (log : list attempt)
    : pyval * ConnectionManager * list attempt :=
  if decide (active_connections s = ∅) then (PNone, s, log)
  else
    let connected_users := get_online_users s in
    let '(s1, log1, _) :=
      foldl (broadcast_all_step tx data exclude_user) (s, log, []) connected_users in
    (PNone, s1, log1).




(** No stored set and no stored timestamp table is empty: the code
    deletes a key as soon as its value empties. *)
Definition no_empty_entries (s : ConnectionManager) : Prop :=
  (∀ c, chat_participants s !! c ≠ Some ∅) ∧
  (∀ u, user_chats s !! u ≠ Some ∅) ∧
  (∀ c, typing_status s !! c ≠ Some ∅) ∧
  (∀ u, typing_timestamps s !! u ≠ Some ∅).

End Registry.

(** ** Permission check (services/websocket_service.py) *)

Module Auth.

Inductive exn :=
| NameError (name : string)
| AttributeError
| TypeError.

(** [d.get(key, default)] on a dictionary. *)
Fixpoint dict_get (d : list (string * pyval)) (key : string) (dflt : pyval) : pyval :=
  match d with
  | [] => dflt
  | (k, v) :: d' => if String.eqb k key then v else dict_get d' key dflt
  end.

(** [x.get(key, default)] on any object: only dictionaries have the
    method. *)
Definition py_get (x : pyval) (key : string) (dflt : pyval) : exn + pyval :=
  match x with
  | PDict d => inr (dict_get d key dflt)
  | _ => inl AttributeError
  end.

(** [needle in haystack] for two strings. *)
Fixpoint is_substring (needle haystack : string) : bool :=
  String.prefix needle haystack ||
  match haystack with
  | EmptyString => false
  | String _ rest => is_substring needle rest
  end.

(** [perm in container] for a string [perm]. *)
Definition py_contains (container : pyval) (perm : string) : exn + bool :=
  match container with
  | PList l => inr (existsb (λ x, match x with PStr t => String.eqb perm t | _ => false end) l)
  | PDict d => inr (existsb (λ kv, String.eqb perm kv.1) d)
  | PStr t => inr (is_substring perm t)
  | _ => inl TypeError
  end.

(** [all(perm in user_permissions for perm in required_permissions)] *)
Fixpoint py_all_in (user_permissions : pyval) (required_permissions : list string) : exn + bool :=
  match required_permissions with
  | [] => inr true
  | perm :: rest =>
      match py_contains user_permissions perm with
      | inl e => inl e
      | inr false => inr false
      | inr true => py_all_in user_permissions rest
      end
  end.

(** [user_role != "admin"] *)
Definition is_admin (user_role : pyval) : bool :=
  match user_role with
  | PStr r => String.eqb r "admin"
  | _ => false
  end.

(** The names bound at module level in services/websocket_service.py.
    The line [from auth.dependencies import verify_token] is commented
    out there. *)
Definition websocket_service_globals : list string :=
  [ "annotations"; "logging"; "datetime"; "Dict"; "Optional"; "Tuple";
    "AsyncIOMotorDatabase"; "MessageCreate"; "ChatService"; "MessageService";
    "UserService"; "ConnectionManager"; "logger"; "WebSocketService" ].

(** The same namespace with the import restored. *)
Definition globals_with_import : list string :=
  "verify_token" :: websocket_service_globals.

(** Looking a global name up. *)
Definition resolve {A} (scope : list string) (name : string) (value : A) : exn + A :=
  if existsb (String.eqb name) scope then inr value else inl (NameError name).

Section WithJose.

(** [jwt.decode(token, SECRET_KEY, algorithms=[ALGORITHM])]: the claims
    of the token, or [None] for a [JWTError]. *)
Variable jwt_decode : string -> option (list (string * pyval)).

(** [verify_token] of auth/dependencies.py. *)
Definition verify_token (token : string) : pyval :=
  match jwt_decode token with
  | Some payload => dict_get payload "sub" PNone
  | None => PNone
  end.

(** The [verify_token] kept in comments in auth/dependencies.py: it
    returns the whole payload. *)
Definition verify_token_payload (token : string) : pyval :=
  match jwt_decode token with
  | Some payload => PDict payload
  | None => PNone
  end.

(** The [try] block of [validate_user_permissions], with the function
    that the name [verify_token] resolved to. *)
Definition validate_body (verify : string -> pyval) (token : string)
    (required_permissions : option (list string)) : exn + (bool * pyval) :=
  let token_payload := verify token in
  if negb (py_truthy token_payload) then inr (false, PDict [])
  else
    match py_get token_payload "permissions" (PList []) with
    | inl e => inl e
    | inr user_permissions =>
        match py_get token_payload "role" (PStr "user") with
        | inl e => inl e
        | inr user_role =>
            match required_permissions with
            | Some (perm :: rest) =>
                match py_all_in user_permissions (perm :: rest) with
                | inl e => inl e
                | inr has_permissions =>
                    if negb has_permissions && negb (is_admin user_role)
                    then inr (false, token_payload)
                    else inr (true, token_payload)
                end
            | _ => inr (true, token_payload)
            end
        end
    end.

(** [validate_user_permissions], run in a module whose global names are
    [scope], where [verify_token] would be bound to [verify]. *)
Definition validate_with (scope : list string) (verify : string -> pyval)
    (token : string) (required_permissions : option (list string)) : bool * pyval :=
  match resolve scope "verify_token" verify with
  | inl _ => (false, PDict [])
  | inr f =>
      match validate_body f token required_permissions with
      | inl _ => (false, PDict [])
      | inr r => r
      end
  end.

(** [WebSocketService.validate_user_permissions] as the repository has
    it. *)
Definition validate_user_permissions (token : string)
    (required_permissions : option (list string)) : bool * pyval :=
  validate_with websocket_service_globals verify_token token required_permissions.

(** What the specification says of [authorize], on a decoded payload. *)
Definition authorize_spec (payload : list (string * pyval))
    (required_permissions : list string) : bool :=
  is_admin (dict_get payload "role" (PStr "user")) ||
  forallb (λ perm, match py_contains (dict_get payload "permissions" (PList [])) perm with
                   | inr b => b
                   | inl _ => false
                   end) required_permissions.

End WithJose.

(** *** The token helpers of [WebSocketService] *)

(** What the helpers ask of a user object: its truth value, and the
    truth value of its attribute [is_active] when it has one.  [None]
    is a false object without attributes. *)
Record user_doc := UserDoc { doc_truthy : bool; is_active : option bool }.

(** An exception inside a helper: one the interpreter raises, or one
    that comes out of a call into the database layer. *)
Inductive failure :=
| PythonError (e : exn)
| DatabaseError.

(** The attributes of a [UserService] object by which the helpers reach
    it: [db], set in [__init__], and the functions of the class
    (services/user_service.py). *)
Definition user_service_attributes : list string :=
  [ "db"; "create_user"; "authenticate_user"; "get_all_users_except";
    "update_online_status"; "update_user_status"; "format_user_response";
    "get_user_by_id" ].

(** [self.user_service.<name>] *)
Definition getattr {A} (attributes : list string) (name : string) (value : A) : exn + A :=
  if existsb (String.eqb name) attributes then inr value else inl AttributeError.

(** [x != user_id] for a string [user_id] *)
Definition py_ne_str (x : pyval) (user_id : string) : bool :=
  match x with
  | PStr t => negb (String.eqb t user_id)
  | _ => true
  end.

Section WithDatabase.

(** [await self.user_service.get_user_by_id(user_id)] *)
Variable get_user_by_id : pyval -> failure + user_doc.

(** What a call of [update_last_active] would do, if the attribute
    existed. *)
Variable update_last_active : string -> failure + unit.

(** The [try] block of [authenticate_websocket_connection], in a module
    whose global names are [scope], where [verify_token] would be bound
    to [verify]. *)
Definition authenticate_body (scope : list string) (verify : string -> pyval)
    (token : string) : failure + (bool * pyval * option string) :=
  if String.eqb token ""
  then inr (false, PNone, Some "Token is required for WebSocket connection")
  else
    match resolve scope "verify_token" verify with
    | inl e => inl (PythonError e)
    | inr f =>
        let token_payload := f token in
        if negb (py_truthy token_payload)
        then inr (false, PNone, Some "Invalid or expired token")
        else
          match py_get token_payload "sub" PNone with
          | inl e => inl (PythonError e)
          | inr user_id =>
              if negb (py_truthy user_id)
              then inr (false, PNone, Some "Invalid token: missing user ID")
              else
                match get_user_by_id user_id with
                | inl e => inl e
                | inr user =>
                    if negb (doc_truthy user)
                    then inr (false, PNone, Some "User not found")
                    else
                      match is_active user with
                      | Some false => inr (false, PNone, Some "User account is deactivated")
                      | _ => inr (true, user_id, None)
                      end
                end
          end
    end.

Definition authenticate_with (scope : list string) (verify : string -> pyval)
    (token : string) : bool * pyval * option string :=
  match authenticate_body scope verify token with
  | inl _ => (false, PNone, Some "Authentication service error")
  | inr r => r
  end.

(** [authenticate_user]: the user id, or [None]. *)
Definition authenticate_user_with (scope : list string) (verify : string -> pyval)
    (token : string) : pyval :=
  match resolve scope "verify_token" verify with
  | inl _ => PNone
  | inr f =>
      let token_payload := f token in
      if negb (py_truthy token_payload) then PNone
      else
        match py_get token_payload "sub" PNone with
        | inl _ => PNone
        | inr user_id =>
            if negb (py_truthy user_id) then PNone
            else
              match get_user_by_id user_id with
              | inl _ => PNone
              | inr user => if doc_truthy user then user_id else PNone
              end
        end
  end.

(** [refresh_user_session] *)
Definition refresh_with (scope : list string) (verify : string -> pyval)
    (user_id token : string) : bool :=
  match resolve scope "verify_token" verify with
  | inl _ => false
  | inr f =>
      let token_payload := f token in
      if negb (py_truthy token_payload) then false
      else
        match py_get token_payload "sub" PNone with
        | inl _ => false
        | inr sub =>
            if py_ne_str sub user_id then false
            else
              match getattr user_service_attributes "update_last_active" update_last_active with
              | inl _ => false
              | inr call =>
                  match call user_id with
                  | inl _ => false
                  | inr _ => true
                  end
              end
        end
  end.

(** The three helpers as the repository has them. *)
Variable jwt_decode : string -> option (list (string * pyval)).

Definition authenticate_websocket_connection (token : string) : bool * pyval * option string :=
  authenticate_with websocket_service_globals (verify_token jwt_decode) token.

Definition authenticate_user (token : string) : pyval :=
  authenticate_user_with websocket_service_globals (verify_token jwt_decode) token.

Definition refresh_user_session (user_id token : string) : bool :=
  refresh_with websocket_service_globals (verify_token jwt_decode) user_id token.

End WithDatabase.

(** A database in which every user exists. *)
Definition everyone (user_id : pyval) : failure + user_doc := inr (UserDoc true None).

(** A sample token: its payload carries the role "admin". *)
Definition admin_payload : list (string * pyval) :=
  [("sub", PStr "u1"); ("role", PStr "admin"); ("permissions", PList [])].

Definition admin_decoder (token : string) : option (list (string * pyval)) :=
  if String.eqb token "admin-token" then Some admin_payload else None.

End Auth.

(** ** Frame decoding (websocket/websocket.py, routes/websocket_routes.py) *)

Module Codec.

Definition SUFFIX : string := "aabb".

(** [raw.endswith(suffix)] *)
Definition endswith (raw suffix : string) : bool :=
  let n := String.length raw in
  let k := String.length suffix in
  (k <=? n)%nat && String.eqb (substring (n - k) k raw) suffix.

(** [raw[:-len(SUFFIX)]] *)
Definition strip_suffix (raw : string) : string :=
  substring 0 (String.length raw - String.length SUFFIX) raw.

(** What [json.loads] can raise. *)
Inductive json_exn :=
| JSONDecodeError
| OtherError (text : string).

(** The outcome of a decoder: the pair it returns, or the exception that
    escapes it; and the texts it handed to [json.loads]. *)
Inductive decoded :=
| Returned (event error : pyval)
| Raised (e : json_exn).

Record decoding := Decoding { outcome : decoded; json_calls : list string }.

Section WithJson.

(** [json.loads] *)
Variable json_loads : string -> json_exn + pyval.

(** [parse_event] of websocket/websocket.py *)
Definition parse_event (raw : string) : decoding :=
  if negb (endswith raw SUFFIX) then
    Decoding (Returned PNone
                (PDict [("status", PInt 400); ("message", PStr "Invalid suffix");
                        ("data", PDict [("received", PStr raw)])]))
             []
  else
    let body := strip_suffix raw in
    match json_loads body with
    | inr event => Decoding (Returned event PNone) [body]
    | inl JSONDecodeError =>
        Decoding (Returned PNone
                    (PDict [("status", PInt 400); ("message", PStr "Malformed JSON");
                            ("data", PDict [("received", PStr raw)])]))
                 [body]
    | inl e => Decoding (Raised e) [body]
    end.

(** ["event_name" in event_dict] *)
Definition has_key (d : list (string * pyval)) (key : string) : bool :=
  existsb (λ kv, String.eqb kv.1 key) d.

Definition structure_error (raw text : string) : pyval :=
  PDict [("message", PStr ("Invalid event structure: " ++ text)%string);
         ("code", PStr "INVALID_STRUCTURE");
         ("data", PDict [("received", PStr raw)])].

(** [parse_event_with_suffix] of routes/websocket_routes.py *)
Definition parse_event_with_suffix (raw : string) : decoding :=
  if negb (endswith raw SUFFIX) then
    Decoding (Returned PNone
                (PDict [("message", PStr "Invalid message format: missing required suffix");
                        ("code", PStr "INVALID_FORMAT");
                        ("data", PDict [("received", PStr raw)])]))
             []
  else
    let body := strip_suffix raw in
    match json_loads body with
    | inr (PDict d) =>
        if negb (has_key d "event_name")
        then Decoding (Returned PNone (structure_error raw "Missing required field: event_name")) [body]
        else if negb (has_key d "event_data")
        then Decoding (Returned (PDict (d ++ [("event_data", PDict [])])) PNone) [body]
        else Decoding (Returned (PDict d) PNone) [body]
    | inr _ =>
        Decoding (Returned PNone (structure_error raw "Event must be a dictionary")) [body]
    | inl JSONDecodeError =>
        Decoding (Returned PNone
                    (PDict [("message", PStr "Invalid JSON format in message");
                            ("code", PStr "INVALID_JSON");
                            ("data", PDict [("received", PStr raw)])]))
                 [body]
    | inl (OtherError text) =>
        Decoding (Returned PNone
                    (PDict [("message", PStr ("Unexpected error parsing event: " ++ text)%string);
                            ("code", PStr "PARSE_ERROR");
                            ("data", PDict [("received", PStr raw)])]))
                 [body]
    end.

End WithJson.

(** The field [data.received] of an error reply. *)
Definition received_text (error : pyval) : option string :=
  match error with
  | PDict d =>
      match Auth.dict_get d "data" PNone with
      | PDict d' =>
          match Auth.dict_get d' "received" PNone with
          | PStr s => Some s
          | _ => None
          end
      | _ => None
      end
  | _ => None
  end.

End Codec.

(** ** The legacy socket handler (websocket/websocket.py) *)

Module Legacy.

(** One value of [message_tracking]. *)
Record MessageInfo := Info {
  sender_ws : WebSocket;
  sender_id : string;
  receiver_id : option string;
  status : string;
  timestamp : string;
  recipients : gset WebSocket;
  delivered_to : gset WebSocket;
  read_by : gset WebSocket;
  message_data : gmap string string
}.

(** The module-level tables. *)
Record State := Tables {
  connected_clients : gset WebSocket;
  authenticated_users : gmap WebSocket string;
  user_connections : gmap string WebSocket;
  message_tracking : gmap string MessageInfo;
  user_last_read_time : gmap WebSocket string;
  typing_users : gmap string (gset string);
  user_typing_in : gmap string string
}.

Definition init : State := Tables ∅ ∅ ∅ ∅ ∅ ∅ ∅.

Definition with_connected_clients (f : gset WebSocket -> gset WebSocket) (s : State) : State :=
  Tables (f (connected_clients s)) (authenticated_users s) (user_connections s)
         (message_tracking s) (user_last_read_time s) (typing_users s) (user_typing_in s).

Definition with_authenticated_users (f : gmap WebSocket string -> gmap WebSocket string)
    (s : State) : State :=
  Tables (connected_clients s) (f (authenticated_users s)) (user_connections s)
         (message_tracking s) (user_last_read_time s) (typing_users s) (user_typing_in s).

Definition with_user_connections (f : gmap string WebSocket -> gmap string WebSocket)
    (s : State) : State :=
  Tables (connected_clients s) (authenticated_users s) (f (user_connections s))
         (message_tracking s) (user_last_read_time s) (typing_users s) (user_typing_in s).

Definition with_message_tracking (f : gmap string MessageInfo -> gmap string MessageInfo)
    (s : State) : State :=
  Tables (connected_clients s) (authenticated_users s) (user_connections s)
         (f (message_tracking s)) (user_last_read_time s) (typing_users s) (user_typing_in s).

Definition with_user_last_read_time (f : gmap WebSocket string -> gmap WebSocket string)
    (s : State) : State :=
  Tables (connected_clients s) (authenticated_users s) (user_connections s)
         (message_tracking s) (f (user_last_read_time s)) (typing_users s) (user_typing_in s).

Definition with_typing_users (f : gmap string (gset string) -> gmap string (gset string))
    (s : State) : State :=
  Tables (connected_clients s) (authenticated_users s) (user_connections s)
         (message_tracking s) (user_last_read_time s) (f (typing_users s)) (user_typing_in s).

Definition with_user_typing_in (f : gmap string string -> gmap string string)
    (s : State) : State :=
  Tables (connected_clients s) (authenticated_users s) (user_connections s)
         (message_tracking s) (user_last_read_time s) (typing_users s) (f (user_typing_in s)).

(** Updates of one tracked record, through the reference the handlers
    hold on it. *)
Definition add_recipient (ws : WebSocket) (i : MessageInfo) : MessageInfo :=
  Info (sender_ws i) (sender_id i) (receiver_id i) (status i) (timestamp i)
       (recipients i ∪ {[ws]}) (delivered_to i) (read_by i) (message_data i).

Definition add_delivered (ws : WebSocket) (i : MessageInfo) : MessageInfo :=
  Info (sender_ws i) (sender_id i) (receiver_id i) (status i) (timestamp i)
       (recipients i) (delivered_to i ∪ {[ws]}) (read_by i) (message_data i).

Definition add_read (ws : WebSocket) (i : MessageInfo) : MessageInfo :=
  Info (sender_ws i) (sender_id i) (receiver_id i) (status i) (timestamp i)
       (recipients i) (delivered_to i) (read_by i ∪ {[ws]}) (message_data i).

Definition set_status (st : string) (i : MessageInfo) : MessageInfo :=
  Info (sender_ws i) (sender_id i) (receiver_id i) st (timestamp i)
       (recipients i) (delivered_to i) (read_by i) (message_data i).

(** The three [discard] calls of [cleanup_connection] on one record. *)
Definition forget_ws (ws : WebSocket) (i : MessageInfo) : MessageInfo :=
  Info (sender_ws i) (sender_id i) (receiver_id i) (status i) (timestamp i)
       (recipients i ∖ {[ws]}) (delivered_to i ∖ {[ws]}) (read_by i ∖ {[ws]})
       (message_data i).

(** What a handler reads from its surroundings: the transports, the
    token verifier ([verify_token] of auth/dependencies.py: the subject
    of the token, or [None]), the ISO parser
    ([datetime.fromisoformat(s.replace('Z', '+00:00'))]: whether the
    result carries a time zone, and the instant; [None] when it raises)
    and the reading of [datetime.now().isoformat()]. *)
Record Env := {
  tx : transport;
  verify_token : option string -> option string;
  iso_time : string -> option (bool * Z);
  now_iso : string
}.

Inductive exn :=
| TransportError
| RuntimeError
| KeyError
| ValueError
| TypeError.

Record world := World { w_state : State; w_log : list attempt }.

(** Handler code: it reads and writes the tables, sends frames, and may
    raise. *)
Definition M (A : Type) : Type := world -> (exn + A) * world.

Definition ret {A} (x : A) : M A := λ w, (inr x, w).

Definition bind {A B} (m : M A) (k : A -> M B) : M B :=
  λ w, match m w with
       | (inr x, w') => k x w'
       | (inl e, w') => (inl e, w')
       end.

Definition raise {A} (e : exn) : M A := λ w, (inl e, w).

Definition get : M State := λ w, (inr (w_state w), w).

Definition modify (f : State -> State) : M unit :=
  λ w, (inr tt, World (f (w_state w)) (w_log w)).

(** [try: m  except Exception: h] *)
Definition try_catch {A} (m : M A) (h : exn -> M A) : M A :=
  λ w, match m w with
       | (inr x, w') => (inr x, w')
       | (inl e, w') => h e w'
       end.

Notation "'let*' x := m 'in' k" := (bind m (λ x, k))
  (at level 10, x name, m at level 100, k at level 200).
Notation "'do*' m 'in' k" := (bind m (λ _, k))
  (at level 10, m at level 100, k at level 200).

(** [for x in l: body(x)] *)
Fixpoint for_each {A} (l : list A) (body : A -> M unit) : M unit :=
  match l with
  | [] => ret tt
  | x :: rest => do* body x in for_each rest body
  end.

(** A truthy string, if any. *)
Definition truthy (o : option string) : option string :=
  match o with
  | Some s => if String.eqb s "" then None else Some s
  | None => None
  end.

(** A dictionary of strings as a JSON object. *)
Definition dict_frame (d : gmap string string) : pyval :=
  PDict ((λ kv, (kv.1, PStr kv.2)) <$> map_to_list d).

(** [json.dumps] of an optional string. *)
Definition opt_frame (o : option string) : pyval :=
  match o with
  | Some s => PStr s
  | None => PNone
  end.

Section Handlers.

Variable env : Env.

(** [await ws.send_text(json.dumps(frame))] *)
Definition send_text (ws : WebSocket) (frame : pyval) : M unit :=
  λ w, if tx env (List.length (w_log w)) ws
       then (inr tt, World (w_state w) (w_log w ++ [Attempt ws frame true]))
       else (inl TransportError, World (w_state w) (w_log w ++ [Attempt ws frame false])).

(** [message_info[...]] updated in place. *)
Definition update_info (message_id : string) (f : MessageInfo -> MessageInfo) : M unit :=
  modify (with_message_tracking (λ mt, match mt !! message_id with
                                       | Some i => <[message_id := f i]> mt
                                       | None => mt
                                       end)).

(** [last_read_dt >= message_dt]: comparing a naive with an aware
    datetime raises. *)
Definition dt_ge (a b : bool * Z) : M bool :=
  if Bool.eqb a.1 b.1 then ret (b.2 <=? a.2)%Z else raise TypeError.

Definition parse_iso (text : string) : M (bool * Z) :=
  match iso_time env text with
  | Some dt => ret dt
  | None => raise ValueError
  end.

Definition status_frame (code : Z) (message : string) : pyval :=
  PDict [("status", PInt code); ("message", PStr message)].

Definition read_receipt (message_id reader_id : string) (flag : string) : pyval :=
  PDict [("event_name", PStr "message_read");
         ("event_data", PDict [("id", PStr message_id); ("reader_id", PStr reader_id);
                               ("read_at", PStr (now_iso env)); (flag, PBool true)])].

Definition handle_login (websocket : WebSocket) (event_data : gmap string string) : M bool :=
  let token := event_data !! "token" in
  match truthy (verify_token env token) with
  | Some user_id =>
      do* modify (with_authenticated_users (<[websocket := user_id]>)) in
      do* modify (with_user_connections (<[user_id := websocket]>)) in
      do* send_text websocket
            (PDict [("status", PInt 200); ("event_name", PStr "auth success");
                    ("message", PStr "Authentication successful");
                    ("event_data", PDict [("user_id", PStr user_id)])]) in
      ret true
  | None =>
      do* send_text websocket (status_frame 403 "Authentication failed") in
      ret false
  end.

Definition auto_check_read_status (recipient_ws : WebSocket) (message_id : string)
    (message_timestamp : string) : M unit :=
  let* s := get in
  match user_last_read_time s !! recipient_ws, message_tracking s !! message_id with
  | Some last_read_time, Some message_info =>
      match truthy (authenticated_users s !! recipient_ws) with
      | Some recipient_id =>
          if decide (recipient_ws ∈ read_by message_info) then ret tt
          else
            try_catch
              (let* message_dt := parse_iso message_timestamp in
               let* last_read_dt := parse_iso last_read_time in
               let* ge := dt_ge last_read_dt message_dt in
               if ge then
                 do* update_info message_id (add_read recipient_ws) in
                 let* s' := get in
                 if decide (sender_ws message_info ∈ connected_clients s')
                 then send_text (sender_ws message_info)
                        (read_receipt message_id recipient_id "auto_read")
                 else ret tt
               else ret tt)
              (λ _, ret tt)
      | None => ret tt
      end
  | _, _ => ret tt
  end.

Definition deliver_to_user (message_id receiver_id : string)
    (message_data : gmap string string) : M unit :=
  let* s := get in
  match message_tracking s !! message_id with
  | None => raise KeyError
  | Some message_info =>
      match user_connections s !! receiver_id with
      | Some receiver_ws =>
          try_catch
            (do* send_text receiver_ws
                   (PDict [("event_name", PStr "receive_message");
                           ("event_data", dict_frame message_data)]) in
             do* update_info message_id (add_recipient receiver_ws) in
             do* update_info message_id (add_delivered receiver_ws) in
             do* update_info message_id (set_status "delivered") in
             do* send_text (sender_ws message_info)
                   (PDict [("event_name", PStr "message_status_update");
                           ("event_data", PDict [("id", PStr message_id);
                                                 ("receiver_id", PStr receiver_id);
                                                 ("status", PStr "delivered");
                                                 ("delivered_at", PStr (now_iso env))])]) in
             match message_data !! "timestamp" with
             | Some ts => auto_check_read_status receiver_ws message_id ts
             | None => raise KeyError
             end)
            (λ _, ret tt)
      | None =>
          send_text (sender_ws message_info)
            (PDict [("event_name", PStr "message_status");
                    ("event_data", PDict [("id", PStr message_id);
                                          ("receiver_id", PStr receiver_id);
                                          ("status", PStr "sent");
                                          ("reason", PStr "user_offline")])])
      end
  end.

(** The [try] statement of the loop of [broadcast_message] for one
    client: [true] when the block ran through, [false] when the [except]
    branch ran. *)
Definition broadcast_one (message_id : string) (message_data : gmap string string)
    (client_ws : WebSocket) : M bool :=
  try_catch
    (do* send_text client_ws
           (PDict [("event_name", PStr "receive_message");
                   ("event_data", dict_frame message_data)]) in
     do* update_info message_id (add_recipient client_ws) in
     do* match message_data !! "timestamp" with
         | Some ts => auto_check_read_status client_ws message_id ts
         | None => raise KeyError
         end in
     ret true)
    (λ _, do* modify (with_connected_clients (λ X, X ∖ {[client_ws]})) in
          ret false).

(** The loop of [broadcast_message] over the clients still to visit.
    [connected_clients.discard(client_ws)] in the [except] branch changes
    the size of the set under iteration: the [for] statement raises
    [RuntimeError] when it asks for the next client. *)
Fixpoint broadcast_loop (sender : WebSocket) (message_id : string)
    (message_data : gmap string string) (clients : list WebSocket)
    (recipients_count : nat) : M nat :=
  match clients with
  | [] => ret recipients_count
  | client_ws :: rest =>
      let* s := get in
      if decide (client_ws ≠ sender ∧ client_ws ∈ dom (authenticated_users s)) then
        let* sent := broadcast_one message_id message_data client_ws in
        if sent
        then broadcast_loop sender message_id message_data rest (S recipients_count)
        else raise RuntimeError
      else broadcast_loop sender message_id message_data rest recipients_count
  end.

Definition broadcast_message (sender : WebSocket) (message_id : string)
    (message_data : gmap string string) : M unit :=
  let* s := get in
  match message_tracking s !! message_id with
  | None => raise KeyError
  | Some _ =>
      let* recipients_count :=
        broadcast_loop sender message_id message_data (elements (connected_clients s)) 0 in
      if (0 <? recipients_count)%nat then
        do* update_info message_id (set_status "delivered") in
        send_text sender
          (PDict [("event_name", PStr "message_broadcast");
                  ("event_data", PDict [("id", PStr message_id);
                                        ("recipients_count", PInt (Z.of_nat recipients_count));
                                        ("status", PStr "delivered")])])
      else ret tt
  end.

Definition handle_send_chat (websocket : WebSocket) (event_data : gmap string string) : M unit :=
  let* s := get in
  match authenticated_users s !! websocket with
  | None => send_text websocket (status_frame 401 "Not authenticated")
  | Some sender =>
      match truthy (event_data !! "id") with
      | None => send_text websocket (status_frame 400 "message_id is required")
      | Some message_id =>
          let message_timestamp := default (now_iso env) (event_data !! "timestamp") in
          let message_data :=
            <["id" := message_id]>
              (<["timestamp" := message_timestamp]> (<["from" := sender]> event_data)) in
          do* modify (with_message_tracking
                        (<[message_id :=
                             Info websocket sender (event_data !! "receiver_id") "sent"
                                  message_timestamp ∅ ∅ ∅ message_data]>)) in
          do* send_text websocket
                (PDict [("status", PInt 200); ("event_name", PStr "message_sent");
                        ("event_data", PDict [("id", PStr message_id); ("status", PStr "sent");
                                              ("timestamp", PStr message_timestamp);
                                              ("message_data", dict_frame message_data)])]) in
          match truthy (event_data !! "receiver_id") with
          | Some receiver => deliver_to_user message_id receiver message_data
          | None => broadcast_message websocket message_id message_data
          end
      end
  end.

(** [event_data.get("id")] when it is truthy and names a tracked
    message, with the record. *)
Definition tracked_message (s : State) (event_data : gmap string string)
    : option (string * MessageInfo) :=
  match truthy (event_data !! "id") with
  | Some message_id =>
      match message_tracking s !! message_id with
      | Some message_info => Some (message_id, message_info)
      | None => None
      end
  | None => None
  end.

Definition handle_message_read (websocket : WebSocket) (event_data : gmap string string) : M unit :=
  let* s := get in
  match authenticated_users s !! websocket with
  | None => send_text websocket (status_frame 401 "Not authenticated")
  | Some reader_id =>
      match tracked_message s event_data with
      | None => send_text websocket (status_frame 404 "Message not found")
      | Some (message_id, message_info) =>
          if decide (websocket = sender_ws message_info) then
            send_text websocket (status_frame 403 "Cannot mark own message as read")
          else
            do* update_info message_id (add_read websocket) in
            do* send_text websocket
                  (PDict [("status", PInt 200); ("event_name", PStr "read_confirmed");
                          ("event_data", PDict [("id", PStr message_id);
                                                ("read_at", PStr (now_iso env))])]) in
            let* s' := get in
            if decide (sender_ws message_info ∈ connected_clients s')
            then send_text (sender_ws message_info)
                   (read_receipt message_id reader_id "manual_read")
            else ret tt
      end
  end.

(** One turn of the loop of [check_all_messages_for_auto_read]. *)
Definition check_one_message (websocket : WebSocket) (reader_id last_read_time : string)
    (message_id : string) : M unit :=
  let* s := get in
  match message_tracking s !! message_id with
  | None => ret tt
  | Some message_info =>
      if decide (websocket ≠ sender_ws message_info
                 ∧ (websocket ∉ read_by message_info)
                 ∧ (websocket ∈ recipients message_info)) then
        try_catch
          (let* message_dt := parse_iso (timestamp message_info) in
           let* last_read_dt := parse_iso last_read_time in
           let* ge := dt_ge last_read_dt message_dt in
           if ge then
             do* update_info message_id (add_read websocket) in
             let* s' := get in
             if decide (sender_ws message_info ∈ connected_clients s')
             then send_text (sender_ws message_info)
                    (read_receipt message_id reader_id "auto_read")
             else ret tt
           else ret tt)
          (λ _, ret tt)
      else ret tt
  end.

Definition check_all_messages_for_auto_read (websocket : WebSocket)
    (last_read_time : string) : M unit :=
  let* s := get in
  match truthy (authenticated_users s !! websocket) with
  | None => ret tt
  | Some reader_id =>
      for_each (map_to_list (message_tracking s)).*1
               (check_one_message websocket reader_id last_read_time)
  end.

Definition handle_update_last_read_time (websocket : WebSocket)
    (event_data : gmap string string) : M unit :=
  let* s := get in
  match authenticated_users s !! websocket with
  | None => ret tt
  | Some _ =>
      match truthy (event_data !! "last_message_time") with
      | Some last_message_time =>
          do* modify (with_user_last_read_time (<[websocket := last_message_time]>)) in
          check_all_messages_for_auto_read websocket last_message_time
      | None => ret tt
      end
  end.

Definition handle_status_check (websocket : WebSocket) (event_data : gmap string string) : M unit :=
  let* s := get in
  match authenticated_users s !! websocket with
  | None => ret tt
  | Some _ =>
      let target_user_id := event_data !! "user_id" in
      let is_online := match target_user_id with
                       | Some u => bool_decide (u ∈ dom (user_connections s))
                       | None => false
                       end in
      send_text websocket
        (PDict [("event_name", PStr "user_status");
                ("event_data", PDict [("user_id", opt_frame target_user_id);
                                      ("online", PBool is_online);
                                      ("timestamp", PStr (now_iso env))])])
  end.

(** One turn of the sending loop of [broadcast_typing_event]; the
    accumulator is the list [disconnected_users]. *)
Definition typing_event_step (typing_user_id : string) (frame : pyval)
    (disconnected_users : list WebSocket) (client_ws : WebSocket) : M (list WebSocket) :=
  let* s := get in
  match authenticated_users s !! client_ws with
  | Some u =>
      if decide (u ≠ typing_user_id) then
        try_catch (do* send_text client_ws frame in ret disconnected_users)
                  (λ _, ret (disconnected_users ++ [client_ws]))
      else ret disconnected_users
  | None => ret disconnected_users
  end.

Fixpoint typing_event_loop (typing_user_id : string) (frame : pyval)
    (clients : list WebSocket) (disconnected_users : list WebSocket) : M (list WebSocket) :=
  match clients with
  | [] => ret disconnected_users
  | client_ws :: rest =>
      let* d := typing_event_step typing_user_id frame disconnected_users client_ws in
      typing_event_loop typing_user_id frame rest d
  end.

Definition broadcast_typing_event (chat_id typing_user_id event_name : string) : M unit :=
  let frame :=
    PDict [("event_name", PStr event_name);
           ("event_data", PDict [("chat_id", PStr chat_id);
                                 ("typing_user_id", PStr typing_user_id);
                                 ("timestamp", PStr (now_iso env))])] in
  let* s := get in
  let* disconnected_users :=
    typing_event_loop typing_user_id frame (elements (connected_clients s)) [] in
  for_each disconnected_users
           (λ client_ws, modify (with_connected_clients (λ X, X ∖ {[client_ws]}))).

Definition typing_ack (event_name chat_id user_id : string) : pyval :=
  PDict [("status", PInt 200); ("event_name", PStr event_name);
         ("event_data", PDict [("chat_id", PStr chat_id); ("user_id", PStr user_id);
                               ("timestamp", PStr (now_iso env))])].

Definition handle_typing_start (websocket : WebSocket) (event_data : gmap string string) : M unit :=
  let* s := get in
  match authenticated_users s !! websocket with
  | None => send_text websocket (status_frame 401 "Not authenticated")
  | Some user_id =>
      match truthy (event_data !! "chat_id") with
      | None => send_text websocket (status_frame 400 "chat_id is required for typing events")
      | Some chat_id =>
          do* modify (with_typing_users (Registry.add_to chat_id user_id)) in
          do* modify (with_user_typing_in (<[user_id := chat_id]>)) in
          do* send_text websocket (typing_ack "typing_start_ack" chat_id user_id) in
          broadcast_typing_event chat_id user_id "typing_start"
      end
  end.

Definition handle_typing_stop (websocket : WebSocket) (event_data : gmap string string) : M unit :=
  let* s := get in
  match authenticated_users s !! websocket with
  | None => send_text websocket (status_frame 401 "Not authenticated")
  | Some user_id =>
      match truthy (event_data !! "chat_id") with
      | None => send_text websocket (status_frame 400 "chat_id is required for typing events")
      | Some chat_id =>
          do* modify (with_typing_users (Registry.discard_from chat_id user_id)) in
          do* modify (with_user_typing_in
                        (λ m, if decide (m !! user_id = Some chat_id)
                              then delete user_id m else m)) in
          do* send_text websocket (typing_ack "typing_stop_ack" chat_id user_id) in
          broadcast_typing_event chat_id user_id "typing_stop"
      end
  end.

(** The part of [cleanup_connection] under [if websocket in
    authenticated_users]. *)
Definition cleanup_user (websocket : WebSocket) : M unit :=
  let* s := get in
  match authenticated_users s !! websocket with
  | Some user_id =>
      do* modify (with_user_connections (delete user_id)) in
      do* modify (with_authenticated_users (delete websocket)) in
      let* s' := get in
      match user_typing_in s' !! user_id with
      | Some chat_id =>
          do* modify (with_typing_users (Registry.discard_from chat_id user_id)) in
          do* modify (with_user_typing_in (delete user_id)) in
          broadcast_typing_event chat_id user_id "typing_stop"
      | None => ret tt
      end
  | None => ret tt
  end.

Definition cleanup_connection (websocket : WebSocket) : M unit :=
  do* modify (with_connected_clients (λ X, X ∖ {[websocket]})) in
  do* cleanup_user websocket in
  do* modify (with_user_last_read_time (delete websocket)) in
  modify (with_message_tracking (fmap (forget_ws websocket))).

(** The routing of [websocket_handler] for one decoded frame; [false]
    when the loop [break]s. *)
Inductive event :=
| EvLogin (event_data : gmap string string)
| EvSendChat (event_data : gmap string string)
| EvTypingStart (event_data : gmap string string)
| EvTypingStop (event_data : gmap string string)
| EvMessageRead (event_data : gmap string string)
| EvUpdateLastReadTime (event_data : gmap string string)
| EvStatusCheck (event_data : gmap string string)
| EvUnknown (event_name : string).

Definition dispatch (websocket : WebSocket) (ev : event) : M bool :=
  match ev with
  | EvLogin d => handle_login websocket d
  | EvSendChat d => do* handle_send_chat websocket d in ret true
  | EvTypingStart d => do* handle_typing_start websocket d in ret true
  | EvTypingStop d => do* handle_typing_stop websocket d in ret true
  | EvMessageRead d => do* handle_message_read websocket d in ret true
  | EvUpdateLastReadTime d => do* handle_update_last_read_time websocket d in ret true
  | EvStatusCheck d => do* handle_status_check websocket d in ret true
  | EvUnknown name =>
      do* send_text websocket (status_frame 404 ("Unknown event: " ++ name)%string) in
      ret true
  end.

(** One turn of the loop of [websocket_handler] on a decoded frame, with
    the [finally] block when the turn ends the loop. *)
Definition handle_frame (websocket : WebSocket) (ev : event) : world -> bool * world :=
  λ w, match dispatch websocket ev w with
       | (inr true, w') => (true, w')
       | (_, w') => (false, (cleanup_connection websocket w').2)
       end.

(** A frame that [parse_event] rejects: the error goes back and the loop
    goes on, unless the send raises. *)
Definition handle_bad_frame (websocket : WebSocket) (error : pyval) : world -> bool * world :=
  λ w, match send_text websocket error w with
       | (inr _, w') => (true, w')
       | (_, w') => (false, (cleanup_connection websocket w').2)
       end.

(** The operations of the delivery tracker on the records. *)
Inductive tracker_op :=
| Deliver (message_id receiver_id : string) (message_data : gmap string string)
| Broadcast (sender : WebSocket) (message_id : string) (message_data : gmap string string)
| AutoCheck (recipient_ws : WebSocket) (message_id message_timestamp : string)
| ManualRead (websocket : WebSocket) (event_data : gmap string string)
| LastRead (websocket : WebSocket) (event_data : gmap string string).

Definition tracker_code (o : tracker_op) : M unit :=
  match o with
  | Deliver m r d => deliver_to_user m r d
  | Broadcast ws m d => broadcast_message ws m d
  | AutoCheck ws m t => auto_check_read_status ws m t
  | ManualRead ws d => handle_message_read ws d
  | LastRead ws d => handle_update_last_read_time ws d
  end.

End Handlers.

(** The server: the tables, the frames sent so far, the sockets whose
    handler loop is running, and every socket object accepted so far. *)
Record Sys := Server {
  sys_world : world;
  sys_open : gset WebSocket;
  sys_seen : gset WebSocket
}.

Definition boot : Sys := Server (World init []) ∅ ∅.

(** What happens to the server. *)
Inductive input :=
| Accept (websocket : WebSocket)
| Frame (env : Env) (websocket : WebSocket) (ev : event)
| BadFrame (env : Env) (websocket : WebSocket) (error : pyval)
| Drop (env : Env) (websocket : WebSocket).

(** The end of a handler loop: the turn said [false]. *)
Definition after_turn (websocket : WebSocket) (y : Sys) (r : bool * world) : Sys :=
  Server r.2 (if r.1 then sys_open y else sys_open y ∖ {[websocket]}) (sys_seen y).

Definition step (y : Sys) (i : input) : Sys :=
  match i with
  | Accept ws =>
      if decide (ws ∈ sys_seen y) then y
      else Server (World (with_connected_clients (λ X, X ∪ {[ws]}) (w_state (sys_world y)))
                         (w_log (sys_world y)))
                  (sys_open y ∪ {[ws]}) (sys_seen y ∪ {[ws]})
  | Frame env ws ev =>
      if decide (ws ∈ sys_open y)
      then after_turn ws y (handle_frame env ws ev (sys_world y))
      else y
  | BadFrame env ws error =>
      if decide (ws ∈ sys_open y)
      then after_turn ws y (handle_bad_frame env ws error (sys_world y))
      else y
  | Drop env ws =>
      if decide (ws ∈ sys_open y)
      then after_turn ws y (false, (cleanup_connection env ws (sys_world y)).2)
      else y
  end.

Definition run (inputs : list input) : Sys := foldl step boot inputs.

Definition reachable (y : Sys) : Prop := ∃ inputs, run inputs = y.

Definition tables (y : Sys) : State := w_state (sys_world y).

(** The tables after a sequence of tracker operations, each in its own
    surroundings. *)
Definition track (ops : list (Env * tracker_op)) (w : world) : world :=
  foldl (λ w eo, (tracker_code eo.1 eo.2 w).2) w ops.

(** The position of a status in the order sent, delivered, read. *)
Definition status_rank (st : string) : nat :=
  if String.eqb st "read" then 2
  else if String.eqb st "delivered" then 1
  else 0.

(** A relation between the tables before and after a piece of handler
    code, whatever the transports do and whether it raises or not. *)
Definition moves {A} (R : State -> State -> Prop) (m : M A) : Prop :=
  ∀ w, R (w_state w) (w_state (m w).2).

(** Code that returns normally whatever happens. *)
Definition never_raises {A} (m : M A) : Prop :=
  ∀ w, ∃ x, (m w).1 = inr x.

(** Every tracked status is one of the two the handlers write. *)
Definition status_known (s : State) : Prop :=
  ∀ message_id i, message_tracking s !! message_id = Some i →
                  status i = "sent" ∨ status i = "delivered".

(** A record after some tracker operations: the same message, a status
    at least as advanced, and sets that have only grown. *)
Definition info_le (i i' : MessageInfo) : Prop :=
  sender_ws i' = sender_ws i ∧ sender_id i' = sender_id i ∧
  receiver_id i' = receiver_id i ∧ timestamp i' = timestamp i ∧
  message_data i' = message_data i ∧
  (status_rank (status i) ≤ status_rank (status i'))%nat ∧
  recipients i ⊆ recipients i' ∧
  delivered_to i ⊆ delivered_to i' ∧
  read_by i ⊆ read_by i'.

Definition tracking_grows (s s' : State) : Prop :=
  ∀ message_id i, message_tracking s !! message_id = Some i →
                  ∃ i', message_tracking s' !! message_id = Some i' ∧ info_le i i'.

(** What [cleanup_connection] does to the tables once the socket has
    left [connected_clients]. *)
Definition cleaned (ws : WebSocket) (s s1 : State) : State :=
  match authenticated_users s !! ws with
  | Some u =>
      let s2 := with_authenticated_users (delete ws)
                  (with_user_connections (delete u) s1) in
      match user_typing_in s !! u with
      | Some c =>
          with_user_typing_in (delete u)
            (with_typing_users (Registry.discard_from c u) s2)
      | None => s2
      end
  | None => s1
  end.

(** A piece of handler code that keeps the statuses known and moves the
    tracked records only forward. *)
Definition advances (s s' : State) : Prop :=
  status_known s → status_known s' ∧ tracking_grows s s'.

(** A piece of handler code that keeps the statuses known. *)
Definition keeps (s s' : State) : Prop := status_known s → status_known s'.

(** Whether [auto_check_read_status] marks the message as read by the
    recipient: the conditions of its guards, its comparison and its
    [except] branch. *)
Definition auto_read_due (env : Env) (s : State) (recipient_ws : WebSocket)
    (message_id message_timestamp : string) : bool :=
  match user_last_read_time s !! recipient_ws, message_tracking s !! message_id with
  | Some last_read_time, Some message_info =>
      match truthy (authenticated_users s !! recipient_ws),
            iso_time env message_timestamp, iso_time env last_read_time with
      | Some _, Some message_dt, Some last_read_dt =>
          negb (bool_decide (recipient_ws ∈ read_by message_info)) &&
          Bool.eqb last_read_dt.1 message_dt.1 && (message_dt.2 <=? last_read_dt.2)%Z
      | _, _, _ => false
      end
  | _, _ => false
  end.

(** A piece of handler code that logs nobody in or out. *)
Definition same_users (s s' : State) : Prop :=
  authenticated_users s' = authenticated_users s.

(** Sample surroundings: every send goes through, the tokens
    "tok-alice" and "tok-bob" are valid, no timestamp parses. *)
Definition calm : Env :=
  {| tx := λ _ _, true;
     verify_token := λ token,
       match token with
       | Some t => if String.eqb t "tok-alice" then Some "alice"
                   else if String.eqb t "tok-bob" then Some "bob" else None
       | None => None
       end;
     iso_time := λ _, None;
     now_iso := "2024-01-01T00:00:00" |}.

(** The same surroundings with the transport of socket 2 dead. *)
Definition bob_down : Env :=
  {| tx := λ _ ws, negb (Pos.eqb ws 2);
     verify_token := verify_token calm;
     iso_time := iso_time calm;
     now_iso := now_iso calm |}.

(** A sample server: sockets 1 and 2 are open, alice has logged in on
    socket 1 and bob on socket 2. *)
Definition two_users : Sys :=
  run [Accept 1%positive; Accept 2%positive;
       Frame calm 1%positive (EvLogin {["token" := "tok-alice"]});
       Frame calm 2%positive (EvLogin {["token" := "tok-bob"]})].

(** The same server after alice sent the message "m1" to bob. *)
Definition one_message : Sys :=
  step two_users
       (Frame calm 1%positive
              (EvSendChat (<["id" := "m1"]> (<["receiver_id" := "bob"]>
                             ({["message" := "hello"]} : gmap string string))))).

End Legacy.

(** * Properties *)

(** ** The registry *)

Section RegistryFacts.

Import Registry.

Lemma members_add_to k x d k' :
  members (add_to k x d) k' = if decide (k = k') then members d k ∪ {[x]} else members d k'.
Proof.
  unfold add_to, members. case_decide as Hk.
  - subst. by rewrite lookup_insert_eq.
  - by rewrite lookup_insert_ne.
Qed.

Lemma members_discard_from k x d k' :
  members (discard_from k x d) k' = if decide (k = k') then members d k ∖ {[x]} else members d k'.
Proof.
  unfold discard_from, members.
  destruct (decide (k = k')) as [<-|Hk]; destruct (d !! k) as [X|] eqn:HX; simpl.
  - destruct (decide (X ∖ {[x]} = ∅)) as [He|He].
    + by rewrite lookup_delete_eq, He.
    + by rewrite lookup_insert_eq.
  - rewrite HX. simpl. set_solver.
  - destruct (decide (X ∖ {[x]} = ∅)) as [He|He].
    + by rewrite lookup_delete_ne.
    + by rewrite lookup_insert_ne.
  - done.
Qed.

Lemma timestamp_of_pop u c tt u' c' :
  timestamp_of (pop_timestamp u c tt) u' c' =
  if decide (u = u' ∧ c = c') then None else timestamp_of tt u' c'.
Proof.
  unfold pop_timestamp, timestamp_of.
  destruct (tt !! u) as [d|] eqn:Hd.
  - destruct (decide (delete c d = ∅)) as [He|He].
    + destruct (decide (u = u')) as [->|Hu].
      * rewrite lookup_delete_eq, Hd. simpl.
        case_decide as Hc.
        -- done.
        -- assert (c ≠ c') by naive_solver.
           rewrite <- (lookup_delete_ne d c c') by done. by rewrite He, lookup_empty.
      * rewrite lookup_delete_ne by done. case_decide; [naive_solver|done].
    + destruct (decide (u = u')) as [->|Hu].
      * rewrite lookup_insert_eq, Hd. simpl.
        case_decide as Hc.
        -- destruct Hc as [_ ->]. by rewrite lookup_delete_eq.
        -- assert (c ≠ c') by naive_solver. by rewrite lookup_delete_ne.
      * rewrite lookup_insert_ne by done. case_decide; [naive_solver|done].
  - case_decide as Hc; [|done]. destruct Hc as [-> _]. by rewrite Hd.
Qed.

(** *** The two indices *)

Lemma join_chat_consistent u c s :
  indices_consistent s → indices_consistent (join_chat u c s).
Proof.
  intros H u' c'. specialize (H u' c'). unfold join_chat. simpl.
  rewrite !members_add_to. repeat case_decide; subst; set_solver.
Qed.

Lemma leave_chat_consistent u c s :
  indices_consistent s → indices_consistent (leave_chat u c s).
Proof.
  intros H u' c'. specialize (H u' c'). unfold leave_chat. simpl.
  rewrite !members_discard_from. repeat case_decide; subst; set_solver.
Qed.

Lemma leave_all_consistent u chats s :
  indices_consistent s →
  indices_consistent (foldl (λ s chat_id, leave_chat u chat_id s) s chats).
Proof.
  revert s. induction chats as [|c chats IH]; intros s H; simpl; [done|].
  apply IH. by apply leave_chat_consistent.
Qed.

Lemma disconnect_indices u s :
  let s2 := foldl (λ s chat_id, leave_chat u chat_id s)
                  (Manager (delete u (active_connections s)) (chat_participants s)
                           (user_chats s) (typing_status s) (typing_timestamps s))
                  (elements (members (user_chats s) u)) in
  chat_participants (disconnect u s) = chat_participants s2 ∧
  user_chats (disconnect u s) = user_chats s2 ∧
  active_connections (disconnect u s) = active_connections s2.
Proof.
  intros s2. unfold disconnect. simpl. fold s2.
  by destruct (typing_timestamps s2 !! u).
Qed.

Lemma disconnect_consistent u s :
  indices_consistent s → indices_consistent (disconnect u s).
Proof.
  intros H. destruct (disconnect_indices u s) as (Hcp & Huc & _).
  intros u' c'. rewrite Hcp, Huc.
  apply leave_all_consistent. intros u'' c''. apply H.
Qed.

Lemma apply_index_op_consistent o s :
  indices_consistent s → indices_consistent (apply_index_op s o).
Proof.
  destruct o; simpl; auto using join_chat_consistent, leave_chat_consistent, disconnect_consistent.
Qed.

Lemma init_consistent : indices_consistent init.
Proof. intros u c. unfold members. simpl. rewrite !lookup_empty. simpl. set_solver. Qed.

(** *** What [disconnect] leaves behind *)

Lemma leave_all_spec u chats s :
  let s' := foldl (λ s chat_id, leave_chat u chat_id s) s chats in
  active_connections s' = active_connections s ∧
  (∀ c, members (chat_participants s') c =
        if decide (c ∈ chats) then members (chat_participants s) c ∖ {[u]}
        else members (chat_participants s) c) ∧
  (∀ u', members (user_chats s') u' =
         if decide (u = u') then members (user_chats s) u ∖ list_to_set chats
         else members (user_chats s) u') ∧
  (∀ c, members (typing_status s') c =
        if decide (c ∈ chats) then members (typing_status s) c ∖ {[u]}
        else members (typing_status s) c) ∧
  (∀ u' c, timestamp_of (typing_timestamps s') u' c =
           if decide (u = u' ∧ c ∈ chats) then None
           else timestamp_of (typing_timestamps s) u' c).
Proof.
  revert s. induction chats as [|c0 chats IH]; intros s; simpl.
  - repeat split; intros; repeat case_decide; try done; set_solver.
  - destruct (IH (leave_chat u c0 s)) as (Hac & Hcp & Huc & Hts & Htt).
    repeat split.
    + by rewrite Hac.
    + intros c. rewrite Hcp. simpl. rewrite !members_discard_from.
      repeat case_decide; subst; set_solver.
    + intros u'. rewrite Huc. simpl. rewrite !members_discard_from.
      repeat case_decide; subst; set_solver.
    + intros c. rewrite Hts. simpl. rewrite !members_discard_from.
      repeat case_decide; subst; set_solver.
    + intros u' c. rewrite Htt. simpl. rewrite timestamp_of_pop.
      repeat case_decide; try done; exfalso; set_solver.
Qed.

Lemma purge_typing_spec u chats ts c :
  members (purge_typing u chats ts) c =
  if decide (c ∈ chats) then members ts c ∖ {[u]} else members ts c.
Proof.
  unfold purge_typing. revert ts. induction chats as [|c0 chats IH]; intros ts; simpl.
  - repeat case_decide; set_solver.
  - rewrite IH, !members_discard_from. repeat case_decide; subst; set_solver.
Qed.

Lemma timestamp_of_delete u tt u' c :
  timestamp_of (delete u tt) u' c = if decide (u = u') then None else timestamp_of tt u' c.
Proof.
  unfold timestamp_of. case_decide; subst.
  - by rewrite lookup_delete_eq.
  - by rewrite lookup_delete_ne.
Qed.

Lemma disconnect_spec u s :
  let s' := disconnect u s in
  active_connections s' = delete u (active_connections s) ∧
  (∀ c, members (chat_participants s') c =
        if decide (c ∈ members (user_chats s) u) then members (chat_participants s) c ∖ {[u]}
        else members (chat_participants s) c) ∧
  (∀ u', members (user_chats s') u' =
         if decide (u = u') then ∅ else members (user_chats s) u') ∧
  (∀ c, members (typing_status s') c =
        if decide (c ∈ members (user_chats s) u ∨
                   is_Some (timestamp_of (typing_timestamps s) u c))
        then members (typing_status s) c ∖ {[u]}
        else members (typing_status s) c) ∧
  (∀ u' c, timestamp_of (typing_timestamps s') u' c =
           if decide (u = u') then None else timestamp_of (typing_timestamps s) u' c).
Proof.
  unfold disconnect.
  set (s1 := Manager (delete u (active_connections s)) _ _ _ _).
  set (chats := elements (members (user_chats s1) u)).
  destruct (leave_all_spec u chats s1) as (Hac & Hcp & Huc & Hts & Htt).
  set (s2 := foldl _ s1 chats) in *.
  assert (Hin : ∀ c, c ∈ chats ↔ c ∈ members (user_chats s) u).
  { intros c. unfold chats. by rewrite elem_of_elements. }
  assert (Hcp' : ∀ c, members (chat_participants s2) c =
                 if decide (c ∈ members (user_chats s) u)
                 then members (chat_participants s) c ∖ {[u]}
                 else members (chat_participants s) c).
  { intros c. rewrite Hcp. simpl. specialize (Hin c). repeat case_decide; tauto. }
  assert (Huc' : ∀ u', members (user_chats s2) u' =
                 if decide (u = u') then ∅ else members (user_chats s) u').
  { intros u'. rewrite Huc. simpl. case_decide; [|done].
    apply set_eq. intros c. specialize (Hin c).
    rewrite elem_of_difference, elem_of_list_to_set. set_solver. }
  assert (Hts2 : ∀ c, members (typing_status s2) c =
                 if decide (c ∈ members (user_chats s) u)
                 then members (typing_status s) c ∖ {[u]}
                 else members (typing_status s) c).
  { intros c. rewrite Hts. simpl. specialize (Hin c). repeat case_decide; tauto. }
  assert (Htt2 : ∀ c, timestamp_of (typing_timestamps s2) u c =
                 if decide (c ∈ members (user_chats s) u) then None
                 else timestamp_of (typing_timestamps s) u c).
  { intros c. rewrite Htt. simpl. specialize (Hin c). repeat case_decide; tauto. }
  destruct (typing_timestamps s2 !! u) as [d|] eqn:Hd; simpl;
    refine (conj _ (conj Hcp' (conj Huc' (conj _ _)))).
  - by rewrite Hac.
  - intros c. rewrite purge_typing_spec, Hts2.
    specialize (Htt2 c). unfold timestamp_of in Htt2 at 1. rewrite Hd in Htt2. simpl in Htt2.
    assert (c ∈ elements (dom d) ↔ is_Some (d !! c)) as Hdom
      by (by rewrite elem_of_elements, elem_of_dom).
    revert Htt2.
    destruct (decide (c ∈ members (user_chats s) u)) as [Hc|Hc]; intros Htt2;
      rewrite Htt2 in Hdom.
    + destruct (decide (_ ∨ _)) as [Hor|Hor]; [|exfalso; apply Hor; by left].
      destruct (decide (c ∈ elements (dom d))) as [Hd'|Hd']; [|done].
      apply set_eq. intros x. rewrite !elem_of_difference. tauto.
    + destruct (decide (c ∈ elements (dom d))) as [Hd'|Hd'];
        destruct (decide (_ ∨ _)) as [Hor|Hor]; try done.
      * exfalso. apply Hor. right. by apply Hdom.
      * exfalso. destruct Hor as [?|Hor]; [done|]. by apply Hd', Hdom.
  - intros u' c. rewrite timestamp_of_delete. case_decide; [done|].
    rewrite Htt. case_decide; [naive_solver|done].
  - by rewrite Hac.
  - intros c. rewrite Hts2.
    specialize (Htt2 c). unfold timestamp_of in Htt2 at 1. rewrite Hd in Htt2. simpl in Htt2.
    revert Htt2.
    destruct (decide (c ∈ members (user_chats s) u)) as [Hc|Hc]; intros Htt2.
    + destruct (decide (_ ∨ _)) as [Hor|Hor]; [done|]. exfalso. apply Hor. by left.
    + destruct (decide (_ ∨ _)) as [Hor|Hor]; [|done].
      exfalso. destruct Hor as [?|Hs]; [done|]. rewrite <- Htt2 in Hs. by destruct Hs.
  - intros u' c. case_decide as Hu.
    + subst u'. unfold timestamp_of. by rewrite Hd.
    + rewrite Htt. case_decide; [naive_solver|done].
Qed.

(** *** States the manager can reach *)

Lemma timestamp_of_stamp now u c tt u' c' :
  timestamp_of (<[u := <[c := now]> (default ∅ (tt !! u))]> tt) u' c' =
  if decide (u = u' ∧ c = c') then Some now else timestamp_of tt u' c'.
Proof.
  unfold timestamp_of. destruct (decide (u = u')) as [<-|Hu].
  - rewrite lookup_insert_eq. simpl. destruct (decide (c = c')) as [<-|Hc].
    + rewrite lookup_insert_eq. by rewrite decide_True.
    + rewrite lookup_insert_ne by done. rewrite decide_False by naive_solver.
      by destruct (tt !! u).
  - rewrite lookup_insert_ne by done. by rewrite decide_False by naive_solver.
Qed.

Lemma init_well_formed : well_formed init.
Proof.
  split; [apply init_consistent|].
  intros u c. unfold members, timestamp_of. simpl. rewrite !lookup_empty. simpl.
  split; [set_solver|]. by intros [? ?].
Qed.

Lemma connect_well_formed ws u s : well_formed s → well_formed (connect ws u s).
Proof. by intros [H1 H2]. Qed.

Lemma join_chat_well_formed u c s : well_formed s → well_formed (join_chat u c s).
Proof. intros [H1 H2]. split; [by apply join_chat_consistent|done]. Qed.

Lemma leave_chat_well_formed u c s : well_formed s → well_formed (leave_chat u c s).
Proof.
  intros [H1 H2]. split; [by apply leave_chat_consistent|].
  intros u' c'. specialize (H2 u' c'). unfold leave_chat. simpl.
  rewrite members_discard_from, timestamp_of_pop.
  destruct (decide (c = c')) as [<-|Hc]; destruct (decide (u = u' ∧ _)) as [[<- Hcc]|Hn];
    try done.
  - rewrite elem_of_difference, elem_of_singleton. split; [tauto|]. by intros [? ?].
  - rewrite elem_of_difference, elem_of_singleton, H2. split; [tauto|].
    intros Hs. split; [done|]. intros ->. by apply Hn.
Qed.

Lemma set_typing_status_well_formed now u c b s :
  well_formed s → well_formed (set_typing_status now u c b s).
Proof.
  intros [H1 H2]. destruct b; (split; [done|]);
    intros u' c'; specialize (H2 u' c'); simpl.
  - rewrite members_add_to, timestamp_of_stamp.
    destruct (decide (c = c')) as [<-|Hc]; destruct (decide (u = u' ∧ _)) as [[<- Hcc]|Hn];
      try done.
    + rewrite elem_of_union, elem_of_singleton. split; [eauto|tauto].
    + rewrite elem_of_union, elem_of_singleton, H2. split; [|tauto].
      intros [?| ->]; [done|]. exfalso. by apply Hn.
  - rewrite members_discard_from, timestamp_of_pop.
    destruct (decide (c = c')) as [<-|Hc]; destruct (decide (u = u' ∧ _)) as [[<- Hcc]|Hn];
      try done.
    + rewrite elem_of_difference, elem_of_singleton. split; [tauto|]. by intros [? ?].
    + rewrite elem_of_difference, elem_of_singleton, H2. split; [tauto|].
      intros Hs. split; [done|]. intros ->. by apply Hn.
Qed.

Lemma disconnect_well_formed u s : well_formed s → well_formed (disconnect u s).
Proof.
  intros [H1 H2]. split; [by apply disconnect_consistent|].
  destruct (disconnect_spec u s) as (_ & _ & _ & Hts & Htt).
  intros u' c. rewrite Hts, Htt. specialize (H2 u' c).
  destruct (decide (u = u')) as [<-|Hu].
  - split; [|by intros [? ?]]. case_decide as Hor; [set_solver|].
    intros Hin. exfalso. apply Hor. right. by apply H2.
  - rewrite <- H2. case_decide; set_solver.
Qed.

Lemma fold_well_formed {A} (f : ConnectionManager → A → ConnectionManager) l s :
  (∀ s x, well_formed s → well_formed (f s x)) →
  well_formed s → well_formed (foldl f s l).
Proof.
  intros Hf. revert s. induction l as [|x l IH]; intros s Hs; simpl; [done|].
  apply IH. by apply Hf.
Qed.

Lemma get_typing_users_well_formed now c e s :
  well_formed s → well_formed (get_typing_users now c e s).2.
Proof.
  intros Hs. unfold get_typing_users. destruct (typing_status s !! c); simpl; [|done].
  apply fold_well_formed; [|done].
  intros s0 x H0. apply (set_typing_status_well_formed now x c false s0 H0).
Qed.

Lemma send_personal_message_well_formed tx u data s log :
  well_formed s → well_formed (send_personal_message tx u data s log).1.2.
Proof.
  intros Hs. unfold send_personal_message.
  destruct (active_connections s !! u); simpl; [|done].
  destruct (tx _ _); simpl; [done|]. by apply disconnect_well_formed.
Qed.

Lemma broadcast_loop_well_formed tx data users acc :
  well_formed acc.1.1 →
  well_formed (foldl (broadcast_step tx data) acc users).1.1.
Proof.
  revert acc. induction users as [|u users IH]; intros [[s log] failed] Hs; simpl; [done|].
  apply IH. unfold broadcast_step.
  pose proof (send_personal_message_well_formed tx u data s log Hs) as H.
  by destruct (send_personal_message tx u data s log) as [[ok s'] log'].
Qed.

Lemma broadcast_to_chat_well_formed tx c data ex s log :
  well_formed s → well_formed (broadcast_to_chat tx c data ex s log).1.2.
Proof.
  intros Hs. unfold broadcast_to_chat.
  destruct (decide (broadcast_targets c ex s = ∅)); simpl; [done|].
  pose proof (broadcast_loop_well_formed tx data
                (elements (broadcast_targets c ex s)) (s, log, []) Hs) as H.
  destruct (foldl _ _ _) as [[s1 log1] failed]. simpl in *.
  apply fold_well_formed; [|done].
  intros s0 x H0. apply (leave_chat_well_formed x c s0 H0).
Qed.

Lemma apply_op_well_formed w o : well_formed w.1 → well_formed (apply_op w o).1.
Proof.
  destruct w as [s log]. simpl. intros Hs. destruct o as [ws u|o|now u c b|now c e|tx u d|tx c d ex]; simpl.
  - by apply connect_well_formed.
  - destruct o; simpl;
      auto using join_chat_well_formed, leave_chat_well_formed, disconnect_well_formed.
  - by apply set_typing_status_well_formed.
  - by apply get_typing_users_well_formed.
  - pose proof (send_personal_message_well_formed tx u d s log Hs).
    by destruct (send_personal_message tx u d s log) as [[? ?] ?].
  - pose proof (broadcast_to_chat_well_formed tx c d ex s log Hs).
    by destruct (broadcast_to_chat tx c d ex s log) as [[? ?] ?].
Qed.

Lemma reachable_well_formed s : reachable s → well_formed s.
Proof.
  intros [ops <-]. unfold run.
  induction ops as [|o ops IH] using rev_ind; simpl.
  - apply init_well_formed.
  - rewrite foldl_app. simpl. by apply apply_op_well_formed.
Qed.

(** C1.  Whatever sequence of [join_chat], [leave_chat] and [disconnect]
    calls is applied to a fresh [ConnectionManager], the forward index
    [chat_participants] and the inverse index [user_chats] agree: user
    [u] is among the participants of chat [c] exactly when [c] is among
    the chats of [u]. *)
Theorem index_ops_keep_indices_consistent (ops : list index_op) :
  indices_consistent (foldl apply_index_op init ops).
Proof.
  induction ops as [|o ops IH] using rev_ind; simpl.
  - apply init_consistent.
  - rewrite foldl_app. simpl. by apply apply_index_op_consistent.
Qed.

(** *** Typing indicators *)

Lemma expire_all_spec now chat users s :
  let s' := foldl (λ s u, set_typing_status now u chat false s) s users in
  active_connections s' = active_connections s ∧
  chat_participants s' = chat_participants s ∧
  user_chats s' = user_chats s ∧
  (∀ c, members (typing_status s') c =
        if decide (chat = c) then members (typing_status s) chat ∖ list_to_set users
        else members (typing_status s) c) ∧
  (∀ u c, timestamp_of (typing_timestamps s') u c =
          if decide (u ∈ users ∧ chat = c) then None
          else timestamp_of (typing_timestamps s) u c).
Proof.
  revert s. induction users as [|u0 users IH]; intros s; cbn [foldl].
  - refine (conj _ (conj _ (conj _ (conj _ _)))); try done.
    intros c. case_decide; [subst|done]. rewrite list_to_set_nil.
    apply set_eq. intros x. rewrite elem_of_difference. set_solver.
  - set (s1 := set_typing_status now u0 chat false s).
    destruct (IH s1) as (Hac & Hcp & Huc & Hts & Htt).
    refine (conj _ (conj _ (conj _ (conj _ _)))).
    + by rewrite Hac.
    + by rewrite Hcp.
    + by rewrite Huc.
    + intros c. rewrite Hts. unfold s1. simpl. rewrite !members_discard_from.
      destruct (decide (chat = c)) as [<-|Hc]; [|done].
      apply set_eq. intros x.
      rewrite decide_True by done.
      rewrite !elem_of_difference, elem_of_union, elem_of_singleton.
      tauto.
    + intros u c. rewrite Htt. unfold s1. simpl. rewrite timestamp_of_pop.
      destruct (decide (u ∈ users ∧ chat = c)) as [[Hu <-]|Hn].
      * rewrite decide_True; [done|]. split; [by right|done].
      * destruct (decide (u0 = u ∧ chat = c)) as [[<- <-]|Hn'].
        -- rewrite decide_True; [done|]. split; [by left|done].
        -- rewrite decide_False; [done|]. intros [Hu <-].
           apply elem_of_cons in Hu as [->|Hu]; [by apply Hn'|by apply Hn].
Qed.

Lemma members_lookup d k X : d !! k = Some X → members d k = X.
Proof. unfold members. by intros ->. Qed.

Lemma typing_fresh_true now chat e s u :
  typing_fresh now chat e s u = Some true ↔
  ∃ t, timestamp_of (typing_timestamps s) u chat = Some t ∧ (now - t ≤ e * 1000000)%Z.
Proof.
  unfold typing_fresh, within_expiry.
  destruct (timestamp_of (typing_timestamps s) u chat) as [t|]; simpl.
  - split.
    + intros [= H]. exists t. split; [done|]. by apply Z.leb_le.
    + intros (t' & [= <-] & H). f_equal. by apply Z.leb_le.
  - split; [done|]. by intros (? & ? & ?).
Qed.

Lemma typing_fresh_false now chat e s u :
  typing_fresh now chat e s u = Some false ↔
  ∃ t, timestamp_of (typing_timestamps s) u chat = Some t ∧ (e * 1000000 < now - t)%Z.
Proof.
  unfold typing_fresh, within_expiry.
  destruct (timestamp_of (typing_timestamps s) u chat) as [t|]; simpl.
  - split.
    + intros [= H]. exists t. split; [done|]. by apply Z.leb_gt.
    + intros (t' & [= <-] & H). f_equal. by apply Z.leb_gt.
  - split; [done|]. by intros (? & ? & ?).
Qed.

(** C7.  [get_typing_users] returns only users whose typing timestamp
    for the chat is at most [expiry_seconds] old at the time of the
    call; every user of the chat's typing set with an older timestamp is
    removed from the typing set and loses the timestamp; and a second
    call at the same time returns the same users and changes nothing. *)
Theorem get_typing_users_expires now chat_id expiry_seconds s :
  let r := get_typing_users now chat_id expiry_seconds s in
  (∀ u, u ∈ r.1 →
        ∃ t, timestamp_of (typing_timestamps s) u chat_id = Some t ∧
             (now - t ≤ expiry_seconds * 1000000)%Z) ∧
  (∀ u t, u ∈ members (typing_status s) chat_id →
          timestamp_of (typing_timestamps s) u chat_id = Some t →
          (expiry_seconds * 1000000 < now - t)%Z →
          (u ∉ members (typing_status r.2) chat_id) ∧
          timestamp_of (typing_timestamps r.2) u chat_id = None) ∧
  (let r' := get_typing_users now chat_id expiry_seconds r.2 in
   r'.1 ≡ₚ r.1 ∧ r'.2 = r.2).
Proof.
  unfold get_typing_users at 1.
  destruct (typing_status s !! chat_id) as [X|] eqn:HX; simpl.
  2:{ split; [intros u Hu; by apply elem_of_nil in Hu|].
      split; [intros u t Hu; unfold members in Hu; rewrite HX in Hu; set_solver|].
      unfold get_typing_users. by rewrite HX. }
  set (E := expired_typing now chat_id expiry_seconds s (elements X)).
  destruct (expire_all_spec now chat_id E s) as (_ & _ & _ & Hts & Htt).
  set (s' := foldl _ s E) in *.
  assert (HE : ∀ u, u ∈ E ↔ u ∈ X ∧ typing_fresh now chat_id expiry_seconds s u = Some false).
  { intros u. unfold E, expired_typing. rewrite list_elem_of_filter, elem_of_elements. tauto. }
  assert (HX' : members (typing_status s') chat_id = X ∖ list_to_set E).
  { rewrite Hts, decide_True by done. by rewrite (members_lookup _ _ _ HX). }
  assert (Hfresh : ∀ u, u ∉ E →
            typing_fresh now chat_id expiry_seconds s' u
            = typing_fresh now chat_id expiry_seconds s u).
  { intros u Hu. unfold typing_fresh. rewrite Htt. by rewrite decide_False by naive_solver. }
  split; [|split].
  - intros u Hu. unfold active_typing in Hu. apply list_elem_of_filter in Hu as [Hu _].
    by apply typing_fresh_true.
  - intros u t Hu Ht Hold. rewrite (members_lookup _ _ _ HX) in Hu.
    assert (u ∈ E) as HuE.
    { apply HE. split; [done|]. apply typing_fresh_false. eauto. }
    split.
    + rewrite HX'. rewrite elem_of_difference, elem_of_list_to_set. tauto.
    + rewrite Htt. by rewrite decide_True.
  - unfold get_typing_users.
    destruct (typing_status s' !! chat_id) as [X'|] eqn:HX''; simpl.
    + rewrite (members_lookup _ _ _ HX'') in HX'. subst X'.
      assert (expired_typing now chat_id expiry_seconds s' (elements (X ∖ list_to_set E)) = [])
        as ->.
      { apply elem_of_nil_inv. intros u Hu. unfold expired_typing in Hu.
        apply list_elem_of_filter in Hu as [Hf Hu].
        apply elem_of_elements, elem_of_difference in Hu as [Hu HuE].
        rewrite elem_of_list_to_set in HuE.
        rewrite Hfresh in Hf by done. apply HuE, HE. done. }
      split; [|done].
      apply NoDup_Permutation.
      * apply NoDup_filter, NoDup_elements.
      * apply NoDup_filter, NoDup_elements.
      * intros u. unfold active_typing. rewrite !list_elem_of_filter, !elem_of_elements.
        rewrite elem_of_difference, elem_of_list_to_set. split.
        -- intros (Hf & Hu & HuE). rewrite Hfresh in Hf by done. done.
        -- intros (Hf & Hu).
           assert (u ∉ E) as HuE.
           { intros HuE. apply HE in HuE as [_ HuE]. congruence. }
           rewrite Hfresh by done. done.
    + split; [|done].
      assert (active_typing now chat_id expiry_seconds s (elements X) = []) as ->; [|done].
      apply elem_of_nil_inv. intros u Hu. unfold active_typing in Hu.
      apply list_elem_of_filter in Hu as [Hf Hu]. apply elem_of_elements in Hu.
      assert (u ∈ members (typing_status s') chat_id) as Hin.
      { rewrite HX'. rewrite elem_of_difference, elem_of_list_to_set. split; [done|].
        intros HuE. apply HE in HuE as [_ HuE]. congruence. }
      unfold members in Hin. rewrite HX'' in Hin. set_solver.
Qed.

(** *** Fan-out *)

Lemma send_personal_message_cases tx u data s log :
  (active_connections s !! u = None ∧
   send_personal_message tx u data s log = (false, s, log)) ∨
  (∃ ws, active_connections s !! u = Some ws ∧ tx (List.length log) ws = true ∧
         send_personal_message tx u data s log = (true, s, log ++ [Attempt ws data true])) ∨
  (∃ ws, active_connections s !! u = Some ws ∧ tx (List.length log) ws = false ∧
         send_personal_message tx u data s log
         = (false, disconnect u s, log ++ [Attempt ws data false])).
Proof.
  unfold send_personal_message.
  destruct (active_connections s !! u) as [ws|]; [|by left].
  right. destruct (tx (List.length log) ws) eqn:Htx; [left|right]; eauto.
Qed.

Lemma disconnect_connections u s u' :
  active_connections (disconnect u s) !! u' =
  if decide (u = u') then None else active_connections s !! u'.
Proof.
  destruct (disconnect_spec u s) as (-> & _).
  case_decide; subst; [apply lookup_delete_eq|by apply lookup_delete_ne].
Qed.

Lemma disconnect_participants u s u' c :
  u' ∈ members (chat_participants (disconnect u s)) c →
  u' ∈ members (chat_participants s) c.
Proof.
  destruct (disconnect_spec u s) as (_ & -> & _). case_decide; set_solver.
Qed.

Lemma disconnect_participants_other u s u' c :
  u ≠ u' → u' ∈ members (chat_participants s) c →
  u' ∈ members (chat_participants (disconnect u s)) c.
Proof.
  destruct (disconnect_spec u s) as (_ & -> & _). case_decide; set_solver.
Qed.

(** The sending loop, user by user. *)
Lemma broadcast_loop_spec tx data users :
  NoDup users →
  ∀ s0 log0 f0,
    let r := foldl (broadcast_step tx data) (s0, log0, f0) users in
    (∃ atts, r.1.2 = log0 ++ atts ∧
             ∀ a, a ∈ atts → att_frame a = data ∧
                  ∃ u, u ∈ users ∧ active_connections s0 !! u = Some (att_ws a)) ∧
    (∃ f, r.2 = f0 ++ f ∧ ∀ u, u ∈ f → u ∈ users) ∧
    (∀ u, u ∉ users → active_connections r.1.1 !! u = active_connections s0 !! u) ∧
    (∀ u c, u ∈ members (chat_participants r.1.1) c → u ∈ members (chat_participants s0) c) ∧
    (∀ u c, u ∈ members (chat_participants s0) c → u ∉ r.2 →
            u ∈ members (chat_participants r.1.1) c) ∧
    (∀ u, u ∈ users →
          match active_connections s0 !! u with
          | None => u ∈ r.2 ∧ active_connections r.1.1 !! u = None
          | Some ws =>
              ∃ n, (List.length log0 ≤ n)%nat ∧
                   r.1.2 !! n = Some (Attempt ws data (tx n ws)) ∧
                   if tx n ws
                   then active_connections r.1.1 !! u = Some ws ∧ (u ∉ f0 → u ∉ r.2)
                   else active_connections r.1.1 !! u = None ∧ u ∈ r.2
          end).
Proof.
  induction users as [|u0 users IH]; intros Hnd s0 log0 f0; cbn [foldl].
  - simpl. refine (conj _ (conj _ (conj _ (conj _ (conj _ _))))); try done.
    + exists []. rewrite app_nil_r. split; [done|]. intros a Ha. by apply elem_of_nil in Ha.
    + exists []. rewrite app_nil_r. split; [done|]. intros u Hu. by apply elem_of_nil in Hu.
    + intros u Hu. by apply elem_of_nil in Hu.
  - apply NoDup_cons in Hnd as [Hu0 Hnd].
    destruct (send_personal_message tx u0 data s0 log0) as [[ok sa] loga] eqn:Hsend.
    set (fa := if ok then f0 else f0 ++ [u0]).
    assert (Hbs : broadcast_step tx data (s0, log0, f0) u0 = (sa, loga, fa)).
    { unfold broadcast_step. by rewrite Hsend. }
    rewrite Hbs.
    destruct (IH Hnd sa loga fa)
      as ((atts & Hlog & Hatts) & (f & Hf & Hfin) & Hac & Hcp1 & Hcp2 & Hus).
    set (r := foldl (broadcast_step tx data) (sa, loga, fa) users) in *.
    assert (Hstep :
      (ok = false ∧ sa = s0 ∧ loga = log0 ∧ active_connections s0 !! u0 = None) ∨
      (∃ ws, ok = true ∧ sa = s0 ∧ loga = log0 ++ [Attempt ws data true] ∧
             active_connections s0 !! u0 = Some ws ∧ tx (List.length log0) ws = true) ∨
      (∃ ws, ok = false ∧ sa = disconnect u0 s0 ∧ loga = log0 ++ [Attempt ws data false] ∧
             active_connections s0 !! u0 = Some ws ∧ tx (List.length log0) ws = false)).
    { destruct (send_personal_message_cases tx u0 data s0 log0)
        as [[H1 H2]|[(ws & H1 & H2 & H3)|(ws & H1 & H2 & H3)]];
        rewrite Hsend in *; simplify_eq; eauto 10. }
    assert (Hlen : (List.length log0 ≤ List.length loga)%nat).
    { destruct Hstep as [(_ & _ & -> & _)|[(ws & _ & _ & -> & _)|(ws & _ & _ & -> & _)]];
        rewrite ?length_app; simpl; lia. }
    assert (Hother : ∀ u, u ≠ u0 → active_connections sa !! u = active_connections s0 !! u).
    { intros u Hu.
      destruct Hstep as [(_ & -> & _)|[(ws & _ & -> & _)|(ws & _ & -> & _)]]; try done.
      rewrite disconnect_connections. by rewrite decide_False. }
    assert (Hrest : ∀ a, a ∈ atts → att_frame a = data ∧
              ∃ u, u ∈ u0 :: users ∧ active_connections s0 !! u = Some (att_ws a)).
    { intros a Ha. destruct (Hatts a Ha) as (Hfr & u & Hu & Hws). split; [done|].
      exists u. split; [by right|]. rewrite <- Hother; [done|]. by intros ->. }
    assert (Hpre : ∃ atts', r.1.2 = log0 ++ atts' ∧
              ∀ a, a ∈ atts' → att_frame a = data ∧
                   ∃ u, u ∈ u0 :: users ∧ active_connections s0 !! u = Some (att_ws a)).
    { rewrite Hlog.
      destruct Hstep as [(_ & _ & -> & _)|[(ws & _ & _ & -> & Hws & _)
                                           |(ws & _ & _ & -> & Hws & _)]].
      - eauto.
      - rewrite <- app_assoc. eexists. split; [done|].
        intros a [->|Ha]%elem_of_cons; [|by apply Hrest].
        split; [done|]. exists u0. split; [by left|done].
      - rewrite <- app_assoc. eexists. split; [done|].
        intros a [->|Ha]%elem_of_cons; [|by apply Hrest].
        split; [done|]. exists u0. split; [by left|done]. }
    refine (conj Hpre (conj _ (conj _ (conj _ (conj _ _))))).
    + destruct ok; subst fa.
      * exists f. split; [done|]. intros u Hu. right. by apply Hfin.
      * exists (u0 :: f). rewrite Hf, <- app_assoc. split; [done|].
        intros u Hu. apply elem_of_cons in Hu as [->|Hu]; [by left|right; by apply Hfin].
    + intros u Hu. apply not_elem_of_cons in Hu as [Hne Hu].
      rewrite Hac by done. by apply Hother.
    + intros u c Hu. apply Hcp1 in Hu.
      destruct Hstep as [(_ & -> & _)|[(ws & _ & -> & _)|(ws & _ & -> & _)]]; try done.
      by eapply disconnect_participants.
    + intros u c Hu Hnf. apply Hcp2; [|done].
      destruct Hstep as [(_ & -> & _)|[(ws & _ & -> & _)|(ws & -> & -> & _)]]; try done.
      apply disconnect_participants_other; [|done].
      intros <-. apply Hnf. rewrite Hf. subst fa. set_solver.
    + intros u Hu. apply elem_of_cons in Hu as [->|Hu].
      * rewrite (Hac u0 Hu0).
        destruct Hstep as [(-> & -> & -> & Hnone)|[(ws & -> & -> & -> & Hsome & Htx)
                                                   |(ws & -> & -> & -> & Hsome & Htx)]].
        -- rewrite Hnone. split; [|done]. rewrite Hf. subst fa. set_solver.
        -- rewrite Hsome. exists (List.length log0). split; [done|].
           rewrite Hlog, Htx. split.
           { rewrite lookup_app_l by (rewrite length_app; simpl; lia).
             by rewrite lookup_app_r, Nat.sub_diag by done. }
           split; [done|]. intros Hnf. rewrite Hf. subst fa.
           intros [?|Hin]%elem_of_app; [done|]. by apply Hu0, Hfin.
        -- rewrite Hsome. exists (List.length log0). split; [done|].
           rewrite Hlog, Htx. split.
           { rewrite lookup_app_l by (rewrite length_app; simpl; lia).
             by rewrite lookup_app_r, Nat.sub_diag by done. }
           split; [by rewrite disconnect_connections, decide_True|].
           rewrite Hf. subst fa. set_solver.
      * assert (u ≠ u0) as Hne by (intros ->; done).
        specialize (Hus u Hu). rewrite (Hother u Hne) in Hus.
        destruct (active_connections s0 !! u) as [ws|]; [|done].
        destruct Hus as (n & Hn & Hl & Hres). exists n. split; [lia|]. split; [done|].
        destruct (tx n ws); [|done]. destruct Hres as [Hres1 Hres2]. split; [done|].
        intros Hnf. apply Hres2. subst fa. destruct ok; [done|].
        intros [?|?%list_elem_of_singleton]%elem_of_app; done.
Qed.

Lemma leave_each_spec chat users s :
  let s' := foldl (λ s u, leave_chat u chat s) s users in
  active_connections s' = active_connections s ∧
  (∀ c, members (chat_participants s') c =
        if decide (chat = c) then members (chat_participants s) chat ∖ list_to_set users
        else members (chat_participants s) c).
Proof.
  revert s. induction users as [|u0 users IH]; intros s; simpl.
  - split; [done|]. intros c. case_decide; set_solver.
  - destruct (IH (leave_chat u0 chat s)) as (Hac & Hcp). split; [by rewrite Hac|].
    intros c. rewrite Hcp. simpl. rewrite !members_discard_from.
    repeat case_decide; subst; set_solver.
Qed.

Lemma broadcast_targets_spec chat ex s u :
  ex ≠ Some "" →
  u ∈ broadcast_targets chat ex s ↔ u ∈ members (chat_participants s) chat ∧ ex ≠ Some u.
Proof.
  intros Hex. unfold broadcast_targets. destruct ex as [x|]; simpl.
  - destruct (String.eqb_spec x "") as [->|Hx]; [done|]. simpl.
    rewrite elem_of_difference, elem_of_singleton. naive_solver.
  - naive_solver.
Qed.

(** C4, as the code has it.  [broadcast_to_chat], called with no
    excluded user or with a non-empty one, returns [None] and nothing
    else.  It sends the payload to the connection of every joined member
    but the excluded one, and to nobody else.  A member whose send fails,
    or who has no connection, is no longer a participant of the chat
    afterwards, and a failed connection is gone from the registry; the
    members after it are still served, and a member whose send went
    through stays connected and joined. *)
Theorem broadcast_to_chat_best_effort tx chat_id data exclude_user s log :
  exclude_user ≠ Some "" →
  let r := broadcast_to_chat tx chat_id data exclude_user s log in
  r.1.1 = PNone ∧
  (∃ atts, r.2 = log ++ atts ∧
           ∀ a, a ∈ atts → att_frame a = data ∧
                ∃ u, u ∈ members (chat_participants s) chat_id ∧ exclude_user ≠ Some u ∧
                     active_connections s !! u = Some (att_ws a)) ∧
  (∀ u, u ∈ members (chat_participants s) chat_id → exclude_user ≠ Some u →
        match active_connections s !! u with
        | None => u ∉ members (chat_participants r.1.2) chat_id
        | Some ws =>
            ∃ n, (List.length log ≤ n)%nat ∧
                 r.2 !! n = Some (Attempt ws data (tx n ws)) ∧
                 if tx n ws
                 then active_connections r.1.2 !! u = Some ws ∧
                      u ∈ members (chat_participants r.1.2) chat_id
                 else active_connections r.1.2 !! u = None ∧
                      u ∉ members (chat_participants r.1.2) chat_id
        end).
Proof.
  intros Hex. unfold broadcast_to_chat.
  destruct (decide (broadcast_targets chat_id exclude_user s = ∅)) as [He|He]; simpl.
  - split; [done|]. split.
    + exists []. rewrite app_nil_r. split; [done|]. intros a Ha. by apply elem_of_nil in Ha.
    + intros u Hu Hne. exfalso.
      assert (u ∈ broadcast_targets chat_id exclude_user s) as Hin
        by (by apply broadcast_targets_spec).
      rewrite He in Hin. set_solver.
  - pose proof (broadcast_loop_spec tx data (elements (broadcast_targets chat_id exclude_user s))
                  (NoDup_elements _) s log [])
      as ((atts & Hlog & Hatts) & (f & Hf & Hfin) & Hac & Hcp1 & Hcp2 & Hus).
    destruct (foldl (broadcast_step tx data) (s, log, []) _) as [[s1 log1] f1] eqn:Hloop.
    simpl in *. subst f1.
    destruct (leave_each_spec chat_id f s1) as (Hac2 & Hcp3).
    split; [done|]. split.
    + exists atts. split; [done|]. intros a Ha.
      destruct (Hatts a Ha) as (Hfr & u & Hu & Hws). split; [done|].
      apply elem_of_elements, broadcast_targets_spec in Hu as [Hu1 Hu2]; [|done].
      eauto.
    + intros u Hu Hne.
      assert (u ∈ elements (broadcast_targets chat_id exclude_user s)) as Hin.
      { apply elem_of_elements. by apply broadcast_targets_spec. }
      specialize (Hus u Hin). rewrite Hcp3, decide_True, Hac2 by done.
      destruct (active_connections s !! u) as [ws|].
      * destruct Hus as (n & Hn & Hl & Hres). exists n. split; [done|]. split; [done|].
        destruct (tx n ws).
        -- destruct Hres as [Hres1 Hres2]. split; [done|].
           assert (u ∉ f) as Hnf.
           { apply Hres2. intros Hnil. by apply elem_of_nil in Hnil. }
           apply elem_of_difference. rewrite elem_of_list_to_set. split; [|done].
           by apply Hcp2.
        -- destruct Hres as [Hres1 Hres2]. split; [done|].
           rewrite elem_of_difference, elem_of_list_to_set. tauto.
      * destruct Hus as [Hus _].
        rewrite elem_of_difference, elem_of_list_to_set. tauto.
Qed.

Lemma broadcast_to_chat_best_effort_witness :
  (None : option string) ≠ Some "" ∧
  (Registry.broadcast_to_chat Registry.one_down "room" (PStr "hi") None Registry.duo []).1.1
  = PNone.
Proof.
  split; [discriminate|].
  apply (broadcast_to_chat_best_effort one_down "room" (PStr "hi") None duo []).
  discriminate.
Defined.

(** C4, as the specification has it, fails: with two members and two
    sends that go through, the value returned is not the count 2. *)
Lemma broadcast_to_chat_returns_no_count :
  let r := Registry.broadcast_to_chat Registry.all_up "room" (PStr "hi") None Registry.duo [] in
  List.length (filter (λ a, att_ok a = true) r.2) = 2%nat ∧ r.1.1 ≠ PInt 2.
Proof. vm_compute. split; [reflexivity|discriminate]. Qed.

End RegistryFacts.

(** ** The permission check *)

Section AuthFacts.

Import Auth.

Lemma verify_token_unbound {A} (value : A) :
  resolve websocket_service_globals "verify_token" value = inl (NameError "verify_token").
Proof. reflexivity. Qed.

(** In the module as it stands the name [verify_token] is unbound: the
    call raises, the handler of the [try] block answers. *)
Lemma validate_user_permissions_refuses jwt_decode token required_permissions :
  validate_user_permissions jwt_decode token required_permissions = (false, PDict []).
Proof. reflexivity. Qed.

(** With the import restored, [verify_token] hands back the subject of
    the token, a string or [None]: neither has a [get] method. *)
Lemma validate_with_subject_refuses jwt_decode token required_permissions :
  (∀ payload, jwt_decode token = Some payload →
              dict_get payload "sub" PNone = PNone ∨
              ∃ sub, dict_get payload "sub" PNone = PStr sub) →
  validate_with globals_with_import (verify_token jwt_decode) token required_permissions
  = (false, PDict []).
Proof.
  intros Hsub. unfold validate_with. simpl. unfold validate_body, verify_token.
  destruct (jwt_decode token) as [payload|]; [|done].
  destruct (Hsub payload eq_refl) as [->|[sub ->]]; [done|].
  simpl. by destruct (negb (String.eqb sub "")).
Qed.

Lemma py_all_in_forallb perms required :
  (∀ perm, ∃ b, py_contains perms perm = inr b) →
  py_all_in perms required =
  inr (forallb (λ perm, match py_contains perms perm with inr b => b | inl _ => false end)
               required).
Proof.
  intros Hc. induction required as [|perm rest IH]; simpl; [done|].
  destruct (Hc perm) as [b Hb]. rewrite Hb. destruct b; simpl; [apply IH|done].
Qed.

Lemma resolve_with_import {A} (value : A) :
  resolve globals_with_import "verify_token" value = inr value.
Proof. reflexivity. Qed.

(** With a verifier that returns the payload, the body of the check is
    the rule of the specification. *)
Lemma validate_with_payload_meets_spec jwt_decode token payload required :
  jwt_decode token = Some payload →
  payload ≠ [] →
  (∃ l, dict_get payload "permissions" (PList []) = PList l) →
  (validate_with globals_with_import (verify_token_payload jwt_decode) token (Some required)).1
  = authorize_spec payload required.
Proof.
  intros Hp Hne [l Hl].
  assert (py_truthy (PDict payload) = true) as Ht by (by destruct payload).
  unfold validate_with. rewrite resolve_with_import.
  unfold validate_body, verify_token_payload, authorize_spec. rewrite Hp, Ht.
  cbn [negb py_get]. rewrite Hl.
  destruct required as [|perm rest].
  - cbn [forallb]. by rewrite orb_true_r.
  - rewrite py_all_in_forallb; [|intros q; simpl; eauto].
    set (has := forallb _ _).
    by destruct has, (is_admin (dict_get payload "role" (PStr "user"))).
Qed.

(** C3.  For a token whose payload carries the role "admin" the
    specification's [authorize] answers true whatever is required, but
    [validate_user_permissions] answers [(False, {})]. *)
Theorem validate_user_permissions_refuses_admin :
  authorize_spec admin_payload ["join_chats"] = true ∧
  validate_user_permissions admin_decoder "admin-token" (Some ["join_chats"])
  = (false, PDict []).
Proof. split; reflexivity. Qed.

End AuthFacts.

(** ** Frame decoding *)

Section CodecFacts.

Import Codec.

Lemma substring_all s : substring 0 (String.length s) s = s.
Proof. induction s as [|a s IH]; simpl; [done|]. by rewrite IH. Qed.

Lemma substring_after p s :
  substring (String.length p) (String.length s) (p ++ s)%string = s.
Proof. induction p as [|a p IH]; simpl; [apply substring_all|apply IH]. Qed.

Lemma length_append (p s : string) :
  String.length (p ++ s)%string = (String.length p + String.length s)%nat.
Proof. induction p as [|a p IH]; simpl; [done|]. by rewrite IH. Qed.

Lemma substring_split n s :
  (n ≤ String.length s)%nat →
  s = (substring 0 n s ++ substring n (String.length s - n) s)%string.
Proof.
  revert n. induction s as [|a s IH]; intros n Hn; simpl in *.
  - by destruct n.
  - destruct n as [|n]; simpl.
    + by rewrite substring_all.
    + change (String a s = String a (substring 0 n s ++
                              substring n (String.length s - n) s)%string).
      f_equal. apply IH. lia.
Qed.

(** [endswith] is Python's: the text is some prefix followed by the
    suffix. *)
Lemma endswith_spec raw suffix :
  endswith raw suffix = true ↔ ∃ p, raw = (p ++ suffix)%string.
Proof.
  unfold endswith. rewrite andb_true_iff, Nat.leb_le, String.eqb_eq. split.
  - intros [Hle Hs]. exists (substring 0 (String.length raw - String.length suffix) raw).
    pose proof (substring_split (String.length raw - String.length suffix) raw) as Hsp.
    replace (String.length raw - (String.length raw - String.length suffix))%nat
      with (String.length suffix) in Hsp by lia.
    rewrite Hs in Hsp. apply Hsp. lia.
  - intros [p ->]. rewrite length_append. split; [lia|].
    replace (String.length p + String.length suffix - String.length suffix)%nat
      with (String.length p) by lia.
    apply substring_after.
Qed.

(** C8.  A frame that does not end with the suffix gets the
    missing-suffix error from both decoders, the error carries the text
    that was received, and [json.loads] is not called. *)
Theorem missing_suffix_rejected json_loads raw :
  endswith raw SUFFIX = false →
  parse_event json_loads raw =
    Decoding (Returned PNone
                (PDict [("status", PInt 400); ("message", PStr "Invalid suffix");
                        ("data", PDict [("received", PStr raw)])])) [] ∧
  parse_event_with_suffix json_loads raw =
    Decoding (Returned PNone
                (PDict [("message", PStr "Invalid message format: missing required suffix");
                        ("code", PStr "INVALID_FORMAT");
                        ("data", PDict [("received", PStr raw)])])) [] ∧
  (∀ d, d = parse_event json_loads raw ∨ d = parse_event_with_suffix json_loads raw →
        json_calls d = [] ∧
        ∃ error, outcome d = Returned PNone error ∧ received_text error = Some raw).
Proof.
  intros H. unfold parse_event, parse_event_with_suffix. rewrite H. simpl.
  split; [done|]. split; [done|].
  intros d [->| ->]; simpl; eauto.
Qed.

Lemma missing_suffix_rejected_witness :
  Codec.endswith "{}" Codec.SUFFIX = false ∧
  Codec.json_calls (Codec.parse_event (λ _, inl Codec.JSONDecodeError) "{}") = [].
Proof.
  split; [reflexivity|].
  by destruct (missing_suffix_rejected (λ _, inl JSONDecodeError) "{}" eq_refl) as (-> & _).
Defined.

End CodecFacts.

(** ** More on the registry *)

Section RegistryLaws.

Import Registry.

Lemma manager_eq s s' :
  active_connections s = active_connections s' →
  chat_participants s = chat_participants s' →
  user_chats s = user_chats s' →
  typing_status s = typing_status s' →
  typing_timestamps s = typing_timestamps s' →
  s = s'.
Proof. destruct s, s'; simpl; by intros -> -> -> -> ->. Qed.

(** *** Idempotence and round trips *)

Lemma add_to_idemp k x d : add_to k x (add_to k x d) = add_to k x d.
Proof.
  unfold add_to at 1. rewrite members_add_to, decide_True by done.
  unfold add_to. rewrite insert_insert_eq. f_equal.
  apply set_eq. intros y. rewrite !elem_of_union. tauto.
Qed.

Lemma discard_from_idemp k x d : discard_from k x (discard_from k x d) = discard_from k x d.
Proof.
  unfold discard_from at 2 3. destruct (d !! k) as [X|] eqn:HX.
  - destruct (decide (X ∖ {[x]} = ∅)) as [He|He].
    + unfold discard_from. by rewrite lookup_delete_eq.
    + unfold discard_from. rewrite lookup_insert_eq.
      assert (X ∖ {[x]} ∖ {[x]} = X ∖ {[x]}) as ->.
      { apply set_eq. intros y. rewrite !elem_of_difference. tauto. }
      rewrite decide_False by done. by rewrite insert_insert_eq.
  - unfold discard_from. by rewrite HX.
Qed.

Lemma pop_timestamp_idemp u c tt : pop_timestamp u c (pop_timestamp u c tt) = pop_timestamp u c tt.
Proof.
  unfold pop_timestamp at 2 3. destruct (tt !! u) as [d|] eqn:Hd.
  - destruct (decide (delete c d = ∅)) as [He|He].
    + unfold pop_timestamp. by rewrite lookup_delete_eq.
    + unfold pop_timestamp. rewrite lookup_insert_eq.
      assert (delete c (delete c d) = delete c d) as ->.
      { apply map_eq. intros i. destruct (decide (c = i)) as [->|Hi].
        - by rewrite !lookup_delete_eq.
        - by rewrite !lookup_delete_ne. }
      rewrite decide_False by done. by rewrite insert_insert_eq.
  - unfold pop_timestamp. by rewrite Hd.
Qed.

(** Joining a chat twice is joining it once, and leaving twice is
    leaving once. *)
Theorem join_leave_idempotent user_id chat_id s :
  join_chat user_id chat_id (join_chat user_id chat_id s) = join_chat user_id chat_id s ∧
  leave_chat user_id chat_id (leave_chat user_id chat_id s) = leave_chat user_id chat_id s.
Proof.
  split.
  - unfold join_chat. simpl. by rewrite !add_to_idemp.
  - unfold leave_chat. simpl. by rewrite !discard_from_idemp, pop_timestamp_idemp.
Qed.

Lemma discard_add_to k x d :
  x ∉ members d k → d !! k ≠ Some ∅ → discard_from k x (add_to k x d) = d.
Proof.
  intros Hx Hne. unfold discard_from, add_to. rewrite lookup_insert_eq.
  unfold members in *. destruct (d !! k) as [X|] eqn:HX; simpl in *.
  - assert ((X ∪ {[x]}) ∖ {[x]} = X) as ->.
    { apply set_eq. intros y. rewrite elem_of_difference, elem_of_union, elem_of_singleton.
      split; [tauto|]. intros Hy. split; [by left|]. by intros ->. }
    rewrite decide_False by congruence.
    rewrite insert_insert_eq. by apply insert_id.
  - assert ((∅ ∪ {[x]}) ∖ {[x]} = (∅ : gset string)) as ->.
    { apply set_eq. intros y. rewrite elem_of_difference, elem_of_union. set_solver. }
    rewrite decide_True by done. rewrite delete_insert_eq. by apply delete_id.
Qed.

Lemma discard_from_absent k x d :
  x ∉ members d k → d !! k ≠ Some ∅ → discard_from k x d = d.
Proof.
  intros Hx Hne. unfold discard_from, members in *.
  destruct (d !! k) as [X|] eqn:HX; simpl in *; [|done].
  assert (X ∖ {[x]} = X) as ->.
  { apply set_eq. intros y. rewrite elem_of_difference, elem_of_singleton.
    split; [tauto|]. intros Hy. split; [done|]. by intros ->. }
  rewrite decide_False by congruence. by apply insert_id.
Qed.

Lemma pop_timestamp_absent u c tt :
  timestamp_of tt u c = None → tt !! u ≠ Some ∅ → pop_timestamp u c tt = tt.
Proof.
  intros Ht Hne. unfold pop_timestamp, timestamp_of in *.
  destruct (tt !! u) as [d|] eqn:Hd; simpl in *; [|done].
  rewrite delete_id by done. rewrite decide_False by congruence. by apply insert_id.
Qed.

(** *** Nothing empty is stored *)

Lemma add_to_no_empty k x d :
  (∀ i, d !! i ≠ Some ∅) → ∀ i, add_to k x d !! i ≠ Some ∅.
Proof.
  intros H i. unfold add_to. destruct (decide (k = i)) as [<-|Hi].
  - rewrite lookup_insert_eq. intros [= He].
    assert (x ∈ (∅ : gset string)) as Hx by (rewrite <- He; apply elem_of_union; right;
                                             by apply elem_of_singleton).
    by apply not_elem_of_empty in Hx.
  - rewrite lookup_insert_ne by done. apply H.
Qed.

Lemma discard_from_no_empty k x d :
  (∀ i, d !! i ≠ Some ∅) → ∀ i, discard_from k x d !! i ≠ Some ∅.
Proof.
  intros H i. unfold discard_from. destruct (d !! k) as [X|] eqn:HX; [|apply H].
  destruct (decide (X ∖ {[x]} = ∅)) as [He|He].
  - destruct (decide (k = i)) as [<-|Hi].
    + by rewrite lookup_delete_eq.
    + rewrite lookup_delete_ne by done. apply H.
  - destruct (decide (k = i)) as [<-|Hi].
    + rewrite lookup_insert_eq. congruence.
    + rewrite lookup_insert_ne by done. apply H.
Qed.

Lemma pop_timestamp_no_empty u c tt :
  (∀ i, tt !! i ≠ Some ∅) → ∀ i, pop_timestamp u c tt !! i ≠ Some ∅.
Proof.
  intros H i. unfold pop_timestamp. destruct (tt !! u) as [d|] eqn:Hd; [|apply H].
  destruct (decide (delete c d = ∅)) as [He|He].
  - destruct (decide (u = i)) as [<-|Hi].
    + by rewrite lookup_delete_eq.
    + rewrite lookup_delete_ne by done. apply H.
  - destruct (decide (u = i)) as [<-|Hi].
    + rewrite lookup_insert_eq. congruence.
    + rewrite lookup_insert_ne by done. apply H.
Qed.

Lemma purge_typing_no_empty u chats ts :
  (∀ i, ts !! i ≠ Some ∅) → ∀ i, purge_typing u chats ts !! i ≠ Some ∅.
Proof.
  unfold purge_typing. revert ts. induction chats as [|c chats IH]; intros ts H; simpl; [done|].
  apply IH. by apply discard_from_no_empty.
Qed.

Lemma init_no_empty : no_empty_entries init.
Proof. repeat split; intros i; simpl; by rewrite lookup_empty. Qed.

Lemma join_chat_no_empty u c s : no_empty_entries s → no_empty_entries (join_chat u c s).
Proof.
  intros (H1 & H2 & H3 & H4). unfold join_chat.
  refine (conj _ (conj _ (conj _ _))); simpl; auto using add_to_no_empty.
Qed.

Lemma leave_chat_no_empty u c s : no_empty_entries s → no_empty_entries (leave_chat u c s).
Proof.
  intros (H1 & H2 & H3 & H4). unfold leave_chat.
  refine (conj _ (conj _ (conj _ _))); simpl;
    auto using discard_from_no_empty, pop_timestamp_no_empty.
Qed.

Lemma set_typing_status_no_empty now u c b s :
  no_empty_entries s → no_empty_entries (set_typing_status now u c b s).
Proof.
  intros (H1 & H2 & H3 & H4). destruct b; simpl;
    refine (conj _ (conj _ (conj _ _))); simpl;
    auto using add_to_no_empty, discard_from_no_empty, pop_timestamp_no_empty.
  intros i. destruct (decide (u = i)) as [<-|Hi].
  - rewrite lookup_insert_eq. intros [= He].
    assert ((<[c:=now]> (default ∅ (typing_timestamps s !! u)) : gmap string Z) !! c = None)
      as Hc by (by rewrite He, lookup_empty).
    by rewrite lookup_insert_eq in Hc.
  - rewrite lookup_insert_ne by done. apply H4.
Qed.

Lemma fold_no_empty {A} (f : ConnectionManager → A → ConnectionManager) l s :
  (∀ s x, no_empty_entries s → no_empty_entries (f s x)) →
  no_empty_entries s → no_empty_entries (foldl f s l).
Proof.
  intros Hf. revert s. induction l as [|x l IH]; intros s Hs; simpl; [done|].
  apply IH. by apply Hf.
Qed.

Lemma disconnect_no_empty u s : no_empty_entries s → no_empty_entries (disconnect u s).
Proof.
  intros Hs. unfold disconnect.
  set (s1 := Manager (delete u (active_connections s)) _ _ _ _).
  assert (no_empty_entries s1) as H1 by done.
  set (chats := elements (members (user_chats s1) u)).
  assert (no_empty_entries (foldl (λ s chat_id, leave_chat u chat_id s) s1 chats)) as H2.
  { apply fold_no_empty; [|done]. intros s0 x H0. apply (leave_chat_no_empty u x s0 H0). }
  set (s2 := foldl _ s1 chats) in *.
  destruct (typing_timestamps s2 !! u) as [d|] eqn:Hd; [|done].
  destruct H2 as (Ha & Hb & Hc & Hd').
  refine (conj _ (conj _ (conj _ _))); simpl; try done.
  - by apply purge_typing_no_empty.
  - intros i. destruct (decide (u = i)) as [<-|Hi].
    + by rewrite lookup_delete_eq.
    + rewrite lookup_delete_ne by done. apply Hd'.
Qed.

Lemma apply_op_no_empty w o : no_empty_entries w.1 → no_empty_entries (apply_op w o).1.
Proof.
  destruct w as [s log]. simpl. intros Hs.
  destruct o as [ws u|o|now u c b|now c e|tx u d|tx c d ex]; simpl.
  - done.
  - destruct o; simpl; auto using join_chat_no_empty, leave_chat_no_empty, disconnect_no_empty.
  - by apply set_typing_status_no_empty.
  - unfold get_typing_users. destruct (typing_status s !! c); simpl; [|done].
    apply fold_no_empty; [|done].
    intros s0 x H0. apply (set_typing_status_no_empty now x c false s0 H0).
  - unfold send_personal_message. destruct (active_connections s !! u); [|done].
    destruct (tx _ _); simpl; [done|]. by apply disconnect_no_empty.
  - unfold broadcast_to_chat.
    destruct (decide (broadcast_targets c ex s = ∅)); simpl; [done|].
    assert (∀ users acc, no_empty_entries acc.1.1 →
              no_empty_entries (foldl (broadcast_step tx d) acc users).1.1) as Hloop.
    { induction users as [|u users IH]; intros [[s0 log0] f0] H0; simpl; [done|].
      apply IH. unfold broadcast_step, send_personal_message.
      destruct (active_connections s0 !! u); [|done].
      destruct (tx _ _); simpl; [done|]. by apply disconnect_no_empty. }
    specialize (Hloop (elements (broadcast_targets c ex s)) (s, log, []) Hs).
    destruct (foldl _ _ _) as [[s1 log1] failed]. simpl in *.
    apply fold_no_empty; [|done]. intros s0 x H0. apply (leave_chat_no_empty x c s0 H0).
Qed.

Lemma reachable_no_empty s : reachable s → no_empty_entries s.
Proof.
  intros [ops <-]. unfold run.
  induction ops as [|o ops IH] using rev_ind; simpl.
  - apply init_no_empty.
  - rewrite foldl_app. simpl. by apply apply_op_no_empty.
Qed.

(** In every state the manager can reach, the pairs recorded in the
    typing sets are the pairs that have a typing timestamp, the two
    membership indices agree, and no dictionary holds an empty set or an
    empty timestamp table. *)
Theorem reachable_state_invariants s :
  reachable s → well_formed s ∧ no_empty_entries s.
Proof.
  intros Hr. split; [by apply reachable_well_formed|by apply reachable_no_empty].
Qed.

Lemma duo_reachable : reachable duo.
Proof.
  exists [OpConnect 1%positive "alice"; OpConnect 2%positive "bob";
          OpIndex (Join "alice" "room"); OpIndex (Join "bob" "room")].
  reflexivity.
Qed.

Lemma reachable_state_invariants_witness :
  Registry.reachable Registry.duo ∧ Registry.no_empty_entries Registry.duo.
Proof.
  split; [apply duo_reachable|]. apply (reachable_state_invariants duo duo_reachable).
Defined.

(** Leaving a chat undoes joining it: for a user who was neither a
    participant of the chat nor typing in it, [leave_chat] after
    [join_chat] gives the state back. *)
Theorem leave_chat_undoes_join_chat user_id chat_id s :
  reachable s →
  user_id ∉ members (chat_participants s) chat_id →
  user_id ∉ members (typing_status s) chat_id →
  leave_chat user_id chat_id (join_chat user_id chat_id s) = s.
Proof.
  intros Hr Hcp Hts.
  destruct (reachable_well_formed s Hr) as [Hi Ht].
  destruct (reachable_no_empty s Hr) as (Hn1 & Hn2 & Hn3 & Hn4).
  apply manager_eq; simpl; try done.
  - by apply discard_add_to.
  - apply discard_add_to; [|done]. intros Hc. by apply Hcp, Hi.
  - by apply discard_from_absent.
  - apply pop_timestamp_absent; [|done].
    destruct (timestamp_of (typing_timestamps s) user_id chat_id) eqn:Hts'; [|done].
    exfalso. apply Hts, Ht. eauto.
Qed.

Lemma leave_chat_undoes_join_chat_witness :
  Registry.leave_chat "carol" "room" (Registry.join_chat "carol" "room" Registry.duo)
  = Registry.duo.
Proof.
  apply (leave_chat_undoes_join_chat "carol" "room" duo duo_reachable);
    apply (bool_decide_unpack _); vm_compute; exact I.
Defined.

(** *** Disconnecting *)

Lemma broadcast_to_chat_attempts tx chat data ex s log :
  ∃ atts, (broadcast_to_chat tx chat data ex s log).2 = log ++ atts ∧
          ∀ a, a ∈ atts → att_frame a = data ∧
               ∃ u, u ∈ broadcast_targets chat ex s ∧
                    active_connections s !! u = Some (att_ws a).
Proof.
  unfold broadcast_to_chat.
  destruct (decide (broadcast_targets chat ex s = ∅)) as [He|He]; simpl.
  - exists []. rewrite app_nil_r. split; [done|]. intros a Ha. by apply elem_of_nil in Ha.
  - pose proof (broadcast_loop_spec tx data (elements (broadcast_targets chat ex s))
                  (NoDup_elements _) s log []) as ((atts & Hlog & Hatts) & _).
    destruct (foldl (broadcast_step tx data) (s, log, []) _) as [[s1 log1] f1].
    simpl in *. exists atts. split; [done|]. intros a Ha.
    destruct (Hatts a Ha) as (Hfr & u & Hu & Hws). split; [done|].
    exists u. split; [by apply elem_of_elements|done].
Qed.

Lemma broadcast_targets_members chat ex s u :
  u ∈ broadcast_targets chat ex s → u ∈ members (chat_participants s) chat.
Proof.
  unfold broadcast_targets. destruct (str_truthy ex); [|done].
  rewrite elem_of_difference. tauto.
Qed.

(** After [disconnect] in a reachable state the user has no connection,
    is a participant of no chat, has no chat of its own left, is in no
    typing set and has no typing timestamp.  A later
    [send_personal_message] to the user returns [False] and does nothing,
    and a later [broadcast_to_chat], to any chat, addresses connections
    of other users only. *)
Theorem disconnect_purges_user user_id s :
  reachable s →
  let s' := disconnect user_id s in
  active_connections s' !! user_id = None ∧
  (∀ c, user_id ∉ members (chat_participants s') c) ∧
  members (user_chats s') user_id = ∅ ∧
  (∀ c, user_id ∉ members (typing_status s') c) ∧
  (∀ c, timestamp_of (typing_timestamps s') user_id c = None) ∧
  (∀ tx data log, send_personal_message tx user_id data s' log = (false, s', log)) ∧
  (∀ tx chat data ex log,
     ∃ atts, (broadcast_to_chat tx chat data ex s' log).2 = log ++ atts ∧
             ∀ a, a ∈ atts → ∃ u, u ≠ user_id ∧ active_connections s' !! u = Some (att_ws a)).
Proof.
  intros Hr. destruct (reachable_well_formed s Hr) as [Hi Ht].
  destruct (disconnect_spec user_id s) as (Hac & Hcp & Huc & Hts & Htt).
  cbv zeta.
  assert (active_connections (disconnect user_id s) !! user_id = None) as Hnone.
  { rewrite Hac. apply lookup_delete_eq. }
  assert (∀ c, user_id ∉ members (chat_participants (disconnect user_id s)) c) as Hout.
  { intros c. rewrite Hcp. case_decide as Hc.
    - rewrite elem_of_difference, elem_of_singleton. tauto.
    - intros Hin. by apply Hc, Hi. }
  refine (conj Hnone (conj Hout (conj _ (conj _ (conj _ (conj _ _)))))).
  - rewrite Huc. by rewrite decide_True.
  - intros c. rewrite Hts. case_decide as Hc.
    + rewrite elem_of_difference, elem_of_singleton. tauto.
    + intros Hin. apply Hc. right. by apply Ht.
  - intros c. rewrite Htt. by rewrite decide_True.
  - intros tx data log. unfold send_personal_message. by rewrite Hnone.
  - intros tx chat data ex log.
    destruct (broadcast_to_chat_attempts tx chat data ex (disconnect user_id s) log)
      as (atts & Hlog & Hatts).
    exists atts. split; [done|]. intros a Ha.
    destruct (Hatts a Ha) as (_ & u & Hu & Hws). exists u. split; [|done].
    intros ->. apply broadcast_targets_members in Hu. by apply (Hout chat).
Qed.

Lemma disconnect_purges_user_witness :
  Registry.reachable Registry.duo ∧
  Registry.active_connections (Registry.disconnect "alice" Registry.duo) !! "alice" = None.
Proof.
  split; [apply duo_reachable|].
  apply (disconnect_purges_user "alice" duo duo_reachable).
Defined.

(** [disconnect] touches nobody else: the connection, the chats, the
    typing marks and the typing timestamps of every other user are what
    they were. *)
Theorem disconnect_spares_others user_id other s :
  other ≠ user_id →
  let s' := disconnect user_id s in
  active_connections s' !! other = active_connections s !! other ∧
  (∀ c, other ∈ members (chat_participants s') c ↔ other ∈ members (chat_participants s) c) ∧
  members (user_chats s') other = members (user_chats s) other ∧
  (∀ c, other ∈ members (typing_status s') c ↔ other ∈ members (typing_status s) c) ∧
  (∀ c, timestamp_of (typing_timestamps s') other c
        = timestamp_of (typing_timestamps s) other c).
Proof.
  intros Hne. destruct (disconnect_spec user_id s) as (Hac & Hcp & Huc & Hts & Htt).
  cbv zeta. refine (conj _ (conj _ (conj _ (conj _ _)))).
  - rewrite Hac. by apply lookup_delete_ne.
  - intros c. rewrite Hcp. case_decide; [|done].
    rewrite elem_of_difference, elem_of_singleton. tauto.
  - rewrite Huc. by rewrite decide_False.
  - intros c. rewrite Hts. case_decide; [|done].
    rewrite elem_of_difference, elem_of_singleton. tauto.
  - intros c. rewrite Htt. by rewrite decide_False.
Qed.

Lemma disconnect_spares_others_witness :
  "bob" ≠ "alice" ∧
  Registry.active_connections (Registry.disconnect "alice" Registry.duo) !! "bob"
  = Registry.active_connections Registry.duo !! "bob".
Proof.
  split; [discriminate|].
  apply (disconnect_spares_others "alice" "bob" duo). discriminate.
Defined.

Lemma disconnect_timestamps u s : typing_timestamps (disconnect u s) !! u = None.
Proof.
  unfold disconnect.
  set (s2 := foldl _ _ _).
  destruct (typing_timestamps s2 !! u) as [d|] eqn:Hd; simpl; [|done].
  apply lookup_delete_eq.
Qed.

(** Disconnecting a user twice is disconnecting once. *)
Theorem disconnect_idempotent user_id s :
  disconnect user_id (disconnect user_id s) = disconnect user_id s.
Proof.
  destruct (disconnect_spec user_id s) as (Hac & _ & Huc & _).
  pose proof (disconnect_timestamps user_id s) as Htt.
  set (s' := disconnect user_id s) in *.
  unfold disconnect. simpl.
  rewrite (Huc user_id), decide_True by done.
  rewrite elements_empty. simpl. rewrite Htt.
  apply manager_eq; simpl; try done.
  rewrite Hac. apply map_eq. intros i. destruct (decide (user_id = i)) as [<-|Hi].
  - by rewrite !lookup_delete_eq.
  - by rewrite !lookup_delete_ne.
Qed.

(** *** Sending to one user *)

(** [send_personal_message] returns [True] exactly when the user has a
    connection and the transport takes the frame; the state is then
    unchanged and the frame is the one new entry of the log.  Without a
    connection nothing happens at all.  Whenever it returns [False] the
    user is offline afterwards. *)
Theorem send_personal_message_outcome tx user_id data s log :
  let r := send_personal_message tx user_id data s log in
  (r.1.1 = true ↔
   ∃ ws, active_connections s !! user_id = Some ws ∧ tx (List.length log) ws = true) ∧
  (∀ ws, active_connections s !! user_id = Some ws →
         r.2 = log ++ [Attempt ws data (tx (List.length log) ws)]) ∧
  (r.1.1 = true → r.1.2 = s) ∧
  (active_connections s !! user_id = None → r = (false, s, log)) ∧
  (r.1.1 = false → is_user_online user_id r.1.2 = false).
Proof.
  cbv zeta. unfold send_personal_message, is_user_online.
  destruct (active_connections s !! user_id) as [ws|] eqn:Hws; simpl.
  - destruct (tx (List.length log) ws) eqn:Htx; simpl.
    + refine (conj _ (conj _ (conj _ (conj _ _)))); try done.
      * split; [eauto|done].
      * intros ws' [= <-]. by rewrite Htx.
    + refine (conj _ (conj _ (conj _ (conj _ _)))); try done.
      * split; [done|]. intros (ws' & [= <-] & Htx'). congruence.
      * intros ws' [= <-]. by rewrite Htx.
      * intros _. rewrite disconnect_connections, decide_True by done.
        apply bool_decide_eq_false. by intros [? ?].
  - refine (conj _ (conj _ (conj _ (conj _ _)))); try done.
    + split; [done|]. by intros (ws' & ? & _).
    + intros _. rewrite Hws. apply bool_decide_eq_false. by intros [? ?].
Qed.

(** *** Typing marks *)

(** A user who starts typing is reported by [get_typing_users] as long
    as the clock has not moved past the bound; a user who stops typing is
    not reported. *)
Theorem typing_mark_is_reported now later user_id chat_id expiry_seconds s :
  (later - now ≤ expiry_seconds * 1000000)%Z →
  user_id ∈ (get_typing_users later chat_id expiry_seconds
               (set_typing_status now user_id chat_id true s)).1 ∧
  user_id ∉ (get_typing_users later chat_id expiry_seconds
               (set_typing_status now user_id chat_id false s)).1.
Proof.
  intros Hle. split.
  - unfold get_typing_users. cbn [set_typing_status typing_status].
    unfold add_to at 1. rewrite lookup_insert_eq. cbn [fst].
    unfold active_typing. apply list_elem_of_filter. split.
    + apply typing_fresh_true. exists now. split; [|done].
      cbn [typing_timestamps]. rewrite timestamp_of_stamp. by rewrite decide_True.
    + apply elem_of_elements, elem_of_union. right. by apply elem_of_singleton.
  - unfold get_typing_users.
    destruct (typing_status (set_typing_status now user_id chat_id false s) !! chat_id)
      as [X|] eqn:HX; cbn [fst]; [|apply not_elem_of_nil].
    unfold active_typing. rewrite list_elem_of_filter, elem_of_elements.
    intros [_ Hin].
    assert (user_id ∈ members (typing_status (set_typing_status now user_id chat_id false s))
                              chat_id) as Hm by (unfold members; by rewrite HX).
    cbn [set_typing_status typing_status] in Hm.
    rewrite members_discard_from, decide_True in Hm by done.
    apply elem_of_difference in Hm as [_ Hm]. apply Hm. by apply elem_of_singleton.
Qed.

Lemma typing_mark_is_reported_witness :
  (7 - 5 ≤ 5 * 1000000)%Z ∧
  "alice" ∈ (Registry.get_typing_users 7 "room" 5
               (Registry.set_typing_status 5 "alice" "room" true Registry.duo)).1.
Proof.
  split; [lia|].
  apply (typing_mark_is_reported 5 7 "alice" "room" 5 duo). lia.
Defined.

(** *** Fan-out to everybody *)

Lemma get_online_users_spec s u :
  u ∈ get_online_users s ↔ is_Some (active_connections s !! u).
Proof.
  unfold get_online_users. rewrite list_elem_of_fmap. split.
  - intros ([u' ws] & -> & Hin). apply elem_of_map_to_list in Hin. simpl. eauto.
  - intros [ws Hws]. exists (u, ws). split; [done|]. by apply elem_of_map_to_list.
Qed.

Lemma broadcast_all_loop_filter tx data ex users acc :
  foldl (broadcast_all_step tx data ex) acc users =
  foldl (broadcast_step tx data) acc
        (filter (λ u, str_truthy ex && bool_decide (Some u = ex) = false) users).
Proof.
  revert acc. induction users as [|u users IH]; intros acc; [done|].
  cbn [foldl]. rewrite IH. rewrite filter_cons.
  unfold broadcast_all_step.
  destruct (str_truthy ex && bool_decide (Some u = ex)) eqn:Hex.
  - by rewrite decide_False by done.
  - by rewrite decide_True by done.
Qed.

(** [broadcast_to_all], called with no excluded user or with a non-empty
    one, returns [None]; it tries the connection of every connected user
    but the excluded one, a user whose send goes through stays connected,
    a user whose send fails is disconnected, and the entry of the
    excluded user is left alone. *)
Theorem broadcast_to_all_best_effort tx data exclude_user s log :
  exclude_user ≠ Some "" →
  let r := broadcast_to_all tx data exclude_user s log in
  r.1.1 = PNone ∧
  (∀ u ws, active_connections s !! u = Some ws → exclude_user ≠ Some u →
           ∃ n, (List.length log ≤ n)%nat ∧
                r.2 !! n = Some (Attempt ws data (tx n ws)) ∧
                active_connections r.1.2 !! u = if tx n ws then Some ws else None) ∧
  (∀ u, exclude_user = Some u →
        active_connections r.1.2 !! u = active_connections s !! u) ∧
  (∃ atts, r.2 = log ++ atts ∧
           ∀ a, a ∈ atts → att_frame a = data ∧
                ∃ u, exclude_user ≠ Some u ∧ active_connections s !! u = Some (att_ws a)).
Proof.
  intros Hex. cbv zeta. unfold broadcast_to_all.
  destruct (decide (active_connections s = ∅)) as [He|He]; simpl.
  - refine (conj _ (conj _ (conj _ _))); try done.
    + intros u ws Hws. rewrite He, lookup_empty in Hws. done.
    + exists []. rewrite app_nil_r. split; [done|]. intros a Ha. by apply elem_of_nil in Ha.
  - rewrite broadcast_all_loop_filter.
    set (P := λ u : string, str_truthy exclude_user && bool_decide (Some u = exclude_user) = false).
    assert (HP : ∀ u, P u ↔ exclude_user ≠ Some u).
    { intros u. unfold P. destruct exclude_user as [x|]; simpl; [|done].
      destruct (String.eqb_spec x "") as [->|Hx]; [done|]. simpl.
      rewrite bool_decide_eq_false. split; intros H [= ->]; by apply H. }
    assert (Hnd : NoDup (filter P (get_online_users s))).
    { apply NoDup_filter. unfold get_online_users. apply NoDup_fst_map_to_list. }
    pose proof (broadcast_loop_spec tx data (filter P (get_online_users s)) Hnd s log [])
      as ((atts & Hlog & Hatts) & _ & Hac & _ & _ & Hus).
    destruct (foldl (broadcast_step tx data) (s, log, []) _) as [[s1 log1] f1].
    simpl in *. refine (conj _ (conj _ (conj _ _))); try done.
    + intros u ws Hws Hne.
      assert (u ∈ filter P (get_online_users s)) as Hin.
      { apply list_elem_of_filter. split; [by apply HP|]. apply get_online_users_spec. eauto. }
      specialize (Hus u Hin). rewrite Hws in Hus.
      destruct Hus as (n & Hn & Hl & Hres). exists n. split; [done|]. split; [done|].
      destruct (tx n ws); by destruct Hres.
    + intros u ->. apply Hac. rewrite list_elem_of_filter. intros [Hp _].
      by apply HP in Hp.
    + exists atts. split; [done|]. intros a Ha.
      destruct (Hatts a Ha) as (Hfr & u & Hu & Hws). split; [done|].
      apply list_elem_of_filter in Hu as [Hp _]. exists u. split; [by apply HP|done].
Qed.

Lemma broadcast_to_all_best_effort_witness :
  Some "bob" ≠ Some "" ∧
  (Registry.broadcast_to_all Registry.one_down (PStr "hi") (Some "bob") Registry.duo []).1.1
  = PNone.
Proof.
  split; [discriminate|].
  apply (broadcast_to_all_best_effort one_down (PStr "hi") (Some "bob") duo []). discriminate.
Defined.
(** *** Statistics *)



End RegistryLaws.

(** ** The legacy handler *)

Section LegacyFacts.

Import Legacy.

Implicit Types (env : Env) (w : world) (ws : WebSocket).

Lemma send_text_state env ws frame w : w_state (send_text env ws frame w).2 = w_state w.
Proof. unfold send_text. by destruct (tx env _ _). Qed.

Lemma send_text_cases env ws frame w :
  send_text env ws frame w = (inr tt, World (w_state w) (w_log w ++ [Attempt ws frame true])) ∨
  send_text env ws frame w
  = (inl TransportError, World (w_state w) (w_log w ++ [Attempt ws frame false])).
Proof. unfold send_text. destruct (tx env _ _); auto. Qed.

(** *** The typing broadcast *)

Lemma typing_event_loop_spec env typing_user_id frame clients d w :
  ∃ d' log', typing_event_loop env typing_user_id frame clients d w
             = (inr d', World (w_state w) log').
Proof.
  revert d w. induction clients as [|c clients IH]; intros d w; simpl.
  - destruct w. by eexists _, _.
  - unfold bind at 1. unfold typing_event_step, bind, get. simpl.
    destruct (authenticated_users (w_state w) !! c) as [u|]; [|apply IH].
    destruct (decide (u ≠ typing_user_id)); [|apply IH].
    unfold try_catch.
    destruct (send_text_cases env c frame w) as [-> | ->]; simpl.
    + destruct (IH d (World (w_state w) (w_log w ++ [Attempt c frame true])))
        as (d' & log' & ->). by eexists _, _.
    + destruct (IH (d ++ [c]) (World (w_state w) (w_log w ++ [Attempt c frame false])))
        as (d' & log' & ->). by eexists _, _.
Qed.

Lemma discard_each_spec env (D : list WebSocket) w :
  for_each D (λ client_ws, modify (with_connected_clients (λ X, X ∖ {[client_ws]}))) w
  = (inr tt, World (with_connected_clients (λ X, X ∖ list_to_set D) (w_state w)) (w_log w)).
Proof.
  revert w. induction D as [|c D IH]; intros [s log]; simpl.
  - unfold ret. do 2 f_equal. destruct s. unfold with_connected_clients. simpl. f_equal.
    apply set_eq. intros x. rewrite elem_of_difference. set_solver.
  - unfold bind, modify. simpl. rewrite IH. simpl. do 2 f_equal.
    destruct s. unfold with_connected_clients. simpl. f_equal.
    apply set_eq. intros x.
    rewrite !elem_of_difference, elem_of_union, elem_of_singleton. tauto.
Qed.

(** [broadcast_typing_event] never raises, and all it does to the tables
    is drop some clients from [connected_clients]. *)
Lemma broadcast_typing_event_spec env chat_id typing_user_id event_name w :
  ∃ D log', broadcast_typing_event env chat_id typing_user_id event_name w
            = (inr tt, World (with_connected_clients (λ X, X ∖ D) (w_state w)) log').
Proof.
  unfold broadcast_typing_event. unfold bind at 1. unfold get. simpl.
  unfold bind.
  destruct (typing_event_loop_spec env typing_user_id
              (PDict [("event_name", PStr event_name);
                      ("event_data", PDict [("chat_id", PStr chat_id);
                                            ("typing_user_id", PStr typing_user_id);
                                            ("timestamp", PStr (now_iso env))])])
              (elements (connected_clients (w_state w))) [] w) as (d' & log' & ->).
  rewrite (discard_each_spec env). simpl. by eexists _, _.
Qed.

Lemma bind_ret_l {A B} (x : A) (k : A → M B) : bind (ret x) k = k x.
Proof. reflexivity. Qed.

Lemma bind_modify {A} f (k : unit → M A) w :
  bind (modify f) k w = k tt (World (f (w_state w)) (w_log w)).
Proof. reflexivity. Qed.

Lemma update_info_tracked {A} message_id f (k : unit → M A) w i :
  message_tracking (w_state w) !! message_id = Some i →
  bind (update_info message_id f) k w
  = k tt (World (with_message_tracking (<[message_id := f i]>) (w_state w)) (w_log w)).
Proof.
  intros Hi. unfold update_info. rewrite bind_modify.
  unfold with_message_tracking. by rewrite Hi.
Qed.

Lemma update_info_untracked {A} message_id f (k : unit → M A) w :
  message_tracking (w_state w) !! message_id = None →
  bind (update_info message_id f) k w = k tt w.
Proof.
  intros Hi. unfold update_info. rewrite bind_modify.
  unfold with_message_tracking. rewrite Hi. by destruct w as [[] ?].
Qed.

(** *** Sockets that have not logged in *)

Lemma reply_only env ws frame w :
  w_state (send_text env ws frame w).2 = w_state w ∧
  ∃ ok, w_log (send_text env ws frame w).2 = w_log w ++ [Attempt ws frame ok].
Proof. destruct (send_text_cases env ws frame w) as [-> | ->]; simpl; eauto. Qed.

Lemma bind_get {A} (k : State → M A) w : bind get k w = k (w_state w) w.
Proof. reflexivity. Qed.

Lemma snd_bind_ret {A B} (m : M A) (x : B) w : (bind m (λ _, ret x) w).2 = (m w).2.
Proof. unfold bind, ret. by destruct (m w) as [[e|a] w']. Qed.

(** A socket that has not logged in cannot change the tables: every
    event but [login] leaves them as they are.  [send_chat],
    [typing_start], [typing_stop] and [message_read] are answered with
    status 401, an unknown event with status 404, and
    [update_last_read_time] and [status_check] with nothing at all. *)
Theorem unauthenticated_event_changes_nothing env ws ev w :
  authenticated_users (w_state w) !! ws = None →
  (∀ d, ev ≠ EvLogin d) →
  let w' := (dispatch env ws ev w).2 in
  w_state w' = w_state w ∧
  match ev with
  | EvUpdateLastReadTime _ | EvStatusCheck _ => w_log w' = w_log w
  | EvUnknown name =>
      ∃ ok, w_log w' = w_log w ++
                       [Attempt ws (status_frame 404 ("Unknown event: " ++ name)%string) ok]
  | _ => ∃ ok, w_log w' = w_log w ++ [Attempt ws (status_frame 401 "Not authenticated") ok]
  end.
Proof.
  intros Hno Hev. cbv zeta.
  destruct ev as [d|d|d|d|d|d|d|name]; try (by destruct (Hev d));
    unfold dispatch; rewrite snd_bind_ret;
    unfold handle_send_chat, handle_typing_start, handle_typing_stop,
      handle_message_read, handle_update_last_read_time, handle_status_check;
    rewrite ?bind_get, ?Hno; try apply reply_only; done.
Qed.

Lemma unauthenticated_event_changes_nothing_witness :
  Legacy.w_state (Legacy.dispatch Legacy.calm 3%positive (Legacy.EvTypingStart ∅)
                    (Legacy.sys_world Legacy.two_users)).2
  = Legacy.tables Legacy.two_users.
Proof.
  apply (unauthenticated_event_changes_nothing calm 3%positive (EvTypingStart ∅)
           (sys_world two_users)); [reflexivity|discriminate].
Defined.

(** *** Logging in *)

(** [handle_login] with a token that verifies to a non-empty user
    records the socket for the user and the user for the socket, over
    whatever was recorded before, and touches nothing else; it returns
    [True] unless the acknowledgement cannot be sent.  With any other
    token it changes nothing, answers 403 and does not return [True]. *)
Theorem handle_login_outcome env ws event_data w :
  let r := handle_login env ws event_data w in
  match truthy (verify_token env (event_data !! "token")) with
  | Some user_id =>
      w_state r.2 = with_user_connections (<[user_id := ws]>)
                      (with_authenticated_users (<[ws := user_id]>) (w_state w)) ∧
      (r.1 = inr true ∨ r.1 = inl TransportError)
  | None =>
      w_state r.2 = w_state w ∧ r.1 ≠ inr true ∧
      ∃ ok, w_log r.2 = w_log w ++ [Attempt ws (status_frame 403 "Authentication failed") ok]
  end.
Proof.
  cbv zeta. unfold handle_login.
  destruct (truthy (verify_token env (event_data !! "token"))) as [user_id|].
  - unfold bind, modify. cbn [w_state w_log fst snd].
    match goal with
    | |- context [send_text ?e ?c ?frame ?w0] =>
        destruct (send_text_cases e c frame w0) as [-> | ->]; simpl; eauto
    end.
  - unfold bind.
    destruct (send_text_cases env ws (status_frame 403 "Authentication failed") w)
      as [-> | ->]; simpl; eauto.
Qed.

(** *** Read receipts *)

(** [handle_message_read] changes the tables in one case only: the
    socket is logged in, the event names a tracked message, and the
    socket is not the one that sent it; then the socket joins [read_by]
    of that message and nothing else changes.  A socket that is not
    logged in gets 401, an unknown or missing message id gets 404, and
    the sender of the message gets 403. *)
Theorem handle_message_read_outcome env ws event_data w :
  let w' := (handle_message_read env ws event_data w).2 in
  let s := w_state w in
  match authenticated_users s !! ws with
  | None =>
      w_state w' = s ∧
      ∃ ok, w_log w' = w_log w ++ [Attempt ws (status_frame 401 "Not authenticated") ok]
  | Some _ =>
      match tracked_message s event_data with
      | None =>
          w_state w' = s ∧
          ∃ ok, w_log w' = w_log w ++ [Attempt ws (status_frame 404 "Message not found") ok]
      | Some (message_id, message_info) =>
          if decide (ws = sender_ws message_info) then
            w_state w' = s ∧
            ∃ ok, w_log w' = w_log w ++
                    [Attempt ws (status_frame 403 "Cannot mark own message as read") ok]
          else
            w_state w' = with_message_tracking (<[message_id := add_read ws message_info]>) s
      end
  end.
Proof.
  cbv zeta. unfold handle_message_read. rewrite bind_get.
  destruct (authenticated_users (w_state w) !! ws) as [reader|]; [|apply reply_only].
  destruct (tracked_message (w_state w) event_data) as [[mid info]|] eqn:Htr;
    [|apply reply_only].
  destruct (decide (ws = sender_ws info)) as [Heq|Hne]; [apply reply_only|].
  assert (message_tracking (w_state w) !! mid = Some info) as Hmid.
  { unfold tracked_message in Htr. destruct (truthy (event_data !! "id")) as [m|]; [|done].
    destruct (message_tracking (w_state w) !! m) eqn:Hs; by simplify_eq. }
  rewrite (update_info_tracked _ _ _ _ _ Hmid).
  unfold bind at 1.
  match goal with
  | |- context [send_text ?e ?c ?frame ?w0] =>
      destruct (send_text_cases e c frame w0) as [-> | ->]; [|done]
  end.
  rewrite bind_get. cbn [w_state].
  destruct (decide (sender_ws info ∈ _)); [|done].
  by rewrite send_text_state.
Qed.

(** *** Typing events *)

Lemma drop_nobody s : with_connected_clients (λ X, X ∖ ∅) s = s.
Proof.
  destruct s. unfold with_connected_clients. simpl. f_equal.
  apply set_eq. intros x. rewrite elem_of_difference. set_solver.
Qed.

Lemma bind_send_state {A} env ws frame (k : unit → M A) w :
  (∀ w0, w_state w0 = w_state w → ∃ D, w_state (k tt w0).2
                                       = with_connected_clients (λ X, X ∖ D) (w_state w)) →
  ∃ D, w_state (bind (send_text env ws frame) k w).2
       = with_connected_clients (λ X, X ∖ D) (w_state w).
Proof.
  intros Hk. unfold bind.
  destruct (send_text_cases env ws frame w) as [-> | ->].
  - by apply Hk.
  - exists ∅. by rewrite drop_nobody.
Qed.

Lemma handle_typing_start_state env ws event_data w user_id chat_id :
  authenticated_users (w_state w) !! ws = Some user_id →
  truthy (event_data !! "chat_id") = Some chat_id →
  ∃ D, w_state (handle_typing_start env ws event_data w).2
       = with_connected_clients (λ X, X ∖ D)
           (with_user_typing_in (<[user_id := chat_id]>)
              (with_typing_users (Registry.add_to chat_id user_id) (w_state w))).
Proof.
  intros Hau Hc. unfold handle_typing_start. rewrite bind_get, Hau, Hc.
  rewrite !bind_modify.
  apply bind_send_state. intros w0 Hw0.
  destruct (broadcast_typing_event_spec env chat_id user_id "typing_start" w0)
    as (D & log' & ->). exists D. simpl. by rewrite Hw0.
Qed.


Lemma handle_typing_stop_state env ws event_data w user_id chat_id :
  authenticated_users (w_state w) !! ws = Some user_id →
  truthy (event_data !! "chat_id") = Some chat_id →
  ∃ D, w_state (handle_typing_stop env ws event_data w).2
       = with_connected_clients (λ X, X ∖ D)
           (with_user_typing_in
              (λ m, if decide (m !! user_id = Some chat_id) then delete user_id m else m)
              (with_typing_users (Registry.discard_from chat_id user_id) (w_state w))).
Proof.
  intros Hau Hc. unfold handle_typing_stop. rewrite bind_get, Hau, Hc.
  rewrite !bind_modify.
  apply bind_send_state. intros w0 Hw0.
  destruct (broadcast_typing_event_spec env chat_id user_id "typing_stop" w0)
    as (D & log' & ->). exists D. simpl. by rewrite Hw0.
Qed.

(** [handle_typing_stop] on a logged-in socket with a non-empty chat id
    takes the user out of the typing set of that chat, dropping the set
    when it empties, and forgets the chat the user types in only if it
    is that chat.  Without a chat id the answer is status 400, and
    nothing changes; a socket that has not logged in changes nothing
    either. *)
Theorem handle_typing_stop_outcome env ws event_data w :
  let w' := (handle_typing_stop env ws event_data w).2 in
  match authenticated_users (w_state w) !! ws with
  | None => w_state w' = w_state w
  | Some user_id =>
      match truthy (event_data !! "chat_id") with
      | None =>
          w_state w' = w_state w ∧
          ∃ ok, w_log w' = w_log w ++
                  [Attempt ws (status_frame 400 "chat_id is required for typing events") ok]
      | Some chat_id =>
          ∃ D, w_state w'
               = with_connected_clients (λ X, X ∖ D)
                   (with_user_typing_in
                      (λ m, if decide (m !! user_id = Some chat_id)
                            then delete user_id m else m)
                      (with_typing_users (Registry.discard_from chat_id user_id) (w_state w)))
      end
  end.
Proof.
  cbv zeta.
  destruct (authenticated_users (w_state w) !! ws) as [user_id|] eqn:Hau.
  - destruct (truthy (event_data !! "chat_id")) as [chat_id|] eqn:Hc.
    + by apply handle_typing_stop_state.
    + unfold handle_typing_stop. rewrite bind_get, Hau, Hc. apply reply_only.
  - unfold handle_typing_stop. rewrite bind_get, Hau. apply reply_only.
Qed.

(** *** Tearing a connection down *)

Lemma cleanup_connection_result env ws w :
  ∃ D log',
    cleanup_connection env ws w
    = (inr tt,
       World (with_message_tracking (fmap (forget_ws ws))
                (with_user_last_read_time (delete ws)
                   (with_connected_clients (λ X, X ∖ D)
                      (cleaned ws (w_state w)
                         (with_connected_clients (λ X, X ∖ {[ws]}) (w_state w))))))
             log').
Proof.
  unfold cleanup_connection. rewrite bind_modify.
  set (w1 := World _ _).
  assert (∃ D log', cleanup_user env ws w1
            = (inr tt, World (with_connected_clients (λ X, X ∖ D)
                                (cleaned ws (w_state w) (w_state w1))) log'))
    as (D & log' & Hcu).
  { unfold cleanup_user, cleaned. rewrite bind_get. subst w1.
    cbn [w_state authenticated_users with_connected_clients].
    destruct (authenticated_users (w_state w) !! ws) as [u|].
    - rewrite !bind_modify, bind_get. cbn [w_state user_typing_in with_connected_clients
        with_user_connections with_authenticated_users].
      destruct (user_typing_in (w_state w) !! u) as [c|].
      + rewrite !bind_modify.
        match goal with
        | |- context [broadcast_typing_event ?e ?c0 ?u0 ?n ?w0] =>
            destruct (broadcast_typing_event_spec e c0 u0 n w0) as (D & log' & ->)
        end.
        by exists D, log'.
      + eexists ∅, _. rewrite drop_nobody. reflexivity.
    - eexists ∅, _. rewrite drop_nobody. reflexivity. }
  unfold bind at 1. rewrite Hcu. rewrite !bind_modify. unfold modify. subst w1.
  cbn [fst snd w_state w_log]. by eexists _, _.
Qed.

Lemma socket_gone (ws : WebSocket) (X D : gset WebSocket) : ws ∉ X ∖ {[ws]} ∖ D.
Proof. rewrite !elem_of_difference, elem_of_singleton. tauto. Qed.

Lemma sockets_shrink (ws : WebSocket) (X D : gset WebSocket) : X ∖ {[ws]} ∖ D ⊆ X.
Proof. intros x. rewrite !elem_of_difference. tauto. Qed.

(** [cleanup_connection] never raises.  The socket leaves
    [connected_clients], [authenticated_users], [user_last_read_time]
    and the three sets of every tracked message.  If the socket was
    logged in as a user, the entry of that user in [user_connections] is
    deleted whichever socket it names, and of the typing marks of the
    user only the one in the chat recorded in [user_typing_in] is
    removed. *)
Theorem cleanup_connection_outcome env ws w :
  let r := cleanup_connection env ws w in
  let s := w_state w in
  let s' := w_state r.2 in
  r.1 = inr tt ∧
  (ws ∉ connected_clients s') ∧ connected_clients s' ⊆ connected_clients s ∧
  authenticated_users s' = delete ws (authenticated_users s) ∧
  user_last_read_time s' = delete ws (user_last_read_time s) ∧
  message_tracking s' = forget_ws ws <$> message_tracking s ∧
  match authenticated_users s !! ws with
  | Some user_id =>
      user_connections s' = delete user_id (user_connections s) ∧
      user_typing_in s' = delete user_id (user_typing_in s) ∧
      typing_users s' = match user_typing_in s !! user_id with
                        | Some chat_id =>
                            Registry.discard_from chat_id user_id (typing_users s)
                        | None => typing_users s
                        end
  | None =>
      user_connections s' = user_connections s ∧
      user_typing_in s' = user_typing_in s ∧
      typing_users s' = typing_users s
  end.
Proof.
  cbv zeta. destruct (cleanup_connection_result env ws w) as (D & log' & ->).
  unfold cleaned. cbn [fst snd w_state].
  destruct (authenticated_users (w_state w) !! ws) as [u|] eqn:Hau.
  - destruct (user_typing_in (w_state w) !! u) as [c|] eqn:Hty; cbn;
      (split; [done|]); (split; [apply socket_gone|]); (split; [apply sockets_shrink|]).
    + by repeat split.
    + rewrite (delete_id (user_typing_in (w_state w))) by done. by repeat split.
  - cbn. (split; [done|]); (split; [apply socket_gone|]); (split; [apply sockets_shrink|]).
    rewrite delete_id by done. by repeat split.
Qed.

(** *** Reasoning about handler code step by step *)

Section Moves.

Context (R : State → State → Prop) `{!PreOrder R}.

Lemma moves_ret {A} (x : A) : moves R (ret x).
Proof. intros w. simpl. reflexivity. Qed.

Lemma moves_raise {A} e : moves R (raise (A:=A) e).
Proof. intros w. simpl. reflexivity. Qed.

Lemma moves_get : moves R get.
Proof. intros w. simpl. reflexivity. Qed.

Lemma moves_send_text env ws frame : moves R (send_text env ws frame).
Proof. intros w. rewrite send_text_state. reflexivity. Qed.

Lemma moves_modify f : (∀ s, R s (f s)) → moves R (modify f).
Proof. intros Hf w. simpl. apply Hf. Qed.

Lemma moves_bind {A B} (m : M A) (k : A → M B) :
  moves R m → (∀ x, moves R (k x)) → moves R (bind m k).
Proof.
  intros Hm Hk w. unfold bind. specialize (Hm w).
  destruct (m w) as [[e|x] w1]; simpl in *; [done|].
  etrans; [exact Hm|]. apply Hk.
Qed.

Lemma moves_try {A} (m : M A) h :
  moves R m → (∀ e, moves R (h e)) → moves R (try_catch m h).
Proof.
  intros Hm Hh w. unfold try_catch. specialize (Hm w).
  destruct (m w) as [[e|x] w1]; simpl in *; [|done].
  etrans; [exact Hm|]. apply Hh.
Qed.

Lemma moves_for_each {A} (l : list A) body :
  (∀ x, moves R (body x)) → moves R (for_each l body).
Proof.
  intros Hb. induction l as [|x l IH]; simpl; [apply moves_ret|].
  apply moves_bind; [apply Hb|]. intros _. apply IH.
Qed.

End Moves.

Ltac walk :=
  repeat match goal with
    | |- moves _ (ret _) => refine (moves_ret _ _)
    | |- moves _ (raise _) => refine (moves_raise _ _)
    | |- moves _ get => refine (moves_get _)
    | |- moves _ (send_text _ _ _) => refine (moves_send_text _ _ _ _)
    | |- moves _ (bind _ _) => refine (moves_bind _ _ _ _ _); [|intros ?]
    | |- moves _ (try_catch _ _) => refine (moves_try _ _ _ _ _); [|intros ?]
    | |- moves _ (for_each _ _) => refine (moves_for_each _ _ _ _); intros ?
    | |- moves _ (match ?x with _ => _ end) => destruct x
    end.

(** *** Tracked messages only move forward *)

Lemma info_le_refl i : info_le i i.
Proof. by repeat split. Qed.

Lemma info_le_trans i1 i2 i3 : info_le i1 i2 → info_le i2 i3 → info_le i1 i3.
Proof.
  intros (A1 & A2 & A3 & A4 & A5 & A6 & A7 & A8 & A9)
         (B1 & B2 & B3 & B4 & B5 & B6 & B7 & B8 & B9).
  repeat split; try congruence; try lia; set_solver.
Qed.

#[local] Instance advances_preorder : PreOrder advances.
Proof.
  split.
  - intros s Hs. split; [done|]. intros mid i Hi. exists i. split; [done|apply info_le_refl].
  - intros s1 s2 s3 H12 H23 H1. destruct (H12 H1) as [H2 G12].
    destruct (H23 H2) as [H3 G23]. split; [done|].
    intros mid i1 Hi1. destruct (G12 mid i1 Hi1) as (i2 & Hi2 & L12).
    destruct (G23 mid i2 Hi2) as (i3 & Hi3 & L23). exists i3. split; [done|].
    by eapply info_le_trans.
Qed.

Lemma advances_update_info message_id f :
  (∀ i, status i = "sent" ∨ status i = "delivered" →
        info_le i (f i) ∧ (status (f i) = "sent" ∨ status (f i) = "delivered")) →
  moves advances (update_info message_id f).
Proof.
  intros Hf. unfold update_info. apply (moves_modify advances). intros s Hs.
  unfold with_message_tracking. simpl.
  destruct (message_tracking s !! message_id) as [i0|] eqn:Hi0.
  - destruct (Hf i0 (Hs _ _ Hi0)) as [Hle Hst]. split.
    + intros mid i. simpl. destruct (decide (message_id = mid)) as [<-|Hm].
      * rewrite lookup_insert_eq. by intros [= <-].
      * rewrite lookup_insert_ne by done. apply Hs.
    + intros mid i Hi. simpl. destruct (decide (message_id = mid)) as [<-|Hm].
      * rewrite lookup_insert_eq. exists (f i0). split; [done|]. by simplify_eq.
      * rewrite lookup_insert_ne by done. exists i. split; [done|apply info_le_refl].
  - split; [done|]. intros mid i Hi. exists i. split; [done|apply info_le_refl].
Qed.

Lemma advances_same_tracking f :
  (∀ s, message_tracking (f s) = message_tracking s) → moves advances (modify f).
Proof.
  intros Hf. apply (moves_modify advances). intros s Hs. split.
  - intros mid i. rewrite Hf. apply Hs.
  - intros mid i Hi. exists i. rewrite Hf. split; [done|apply info_le_refl].
Qed.

Lemma add_recipient_ok ws i :
  status i = "sent" ∨ status i = "delivered" →
  info_le i (add_recipient ws i) ∧
  (status (add_recipient ws i) = "sent" ∨ status (add_recipient ws i) = "delivered").
Proof. intros H. split; [|done]. repeat split; simpl; try done; set_solver. Qed.

Lemma add_delivered_ok ws i :
  status i = "sent" ∨ status i = "delivered" →
  info_le i (add_delivered ws i) ∧
  (status (add_delivered ws i) = "sent" ∨ status (add_delivered ws i) = "delivered").
Proof. intros H. split; [|done]. repeat split; simpl; try done; set_solver. Qed.

Lemma add_read_ok ws i :
  status i = "sent" ∨ status i = "delivered" →
  info_le i (add_read ws i) ∧
  (status (add_read ws i) = "sent" ∨ status (add_read ws i) = "delivered").
Proof. intros H. split; [|done]. repeat split; simpl; try done; set_solver. Qed.

Lemma set_delivered_ok i :
  status i = "sent" ∨ status i = "delivered" →
  info_le i (set_status "delivered" i) ∧
  (status (set_status "delivered" i) = "sent" ∨ status (set_status "delivered" i) = "delivered").
Proof.
  intros H. split; [|by right]. repeat split; simpl; try done.
  destruct H as [-> | ->]; vm_compute; lia.
Qed.

Lemma advances_dt_ge a b : moves advances (dt_ge a b).
Proof. unfold dt_ge. destruct (Bool.eqb a.1 b.1); walk. Qed.

Lemma advances_parse_iso env text : moves advances (parse_iso env text).
Proof. unfold parse_iso. walk. Qed.

Lemma advances_auto_check env ws message_id ts :
  moves advances (auto_check_read_status env ws message_id ts).
Proof.
  unfold auto_check_read_status.
  walk; auto using advances_parse_iso, advances_dt_ge.
  all: try (apply advances_update_info; auto using add_read_ok).
Qed.

Ltac advance_step :=
  first [ apply advances_update_info;
          auto using add_recipient_ok, add_delivered_ok, add_read_ok, set_delivered_ok
        | apply advances_same_tracking; reflexivity
        | apply advances_parse_iso | apply advances_dt_ge | apply advances_auto_check ].

Lemma advances_deliver env message_id receiver_id message_data :
  moves advances (deliver_to_user env message_id receiver_id message_data).
Proof. unfold deliver_to_user. walk; advance_step. Qed.

Lemma advances_broadcast_one env message_id message_data client_ws :
  moves advances (broadcast_one env message_id message_data client_ws).
Proof. unfold broadcast_one. walk; advance_step. Qed.

Lemma advances_broadcast_loop env sender message_id message_data clients n :
  moves advances (broadcast_loop env sender message_id message_data clients n).
Proof.
  revert n. induction clients as [|c clients IH]; intros n; simpl; walk; auto.
  apply advances_broadcast_one.
Qed.

Lemma advances_broadcast env sender message_id message_data :
  moves advances (broadcast_message env sender message_id message_data).
Proof.
  unfold broadcast_message. walk; try advance_step. apply advances_broadcast_loop.
Qed.

Lemma advances_message_read env ws event_data :
  moves advances (handle_message_read env ws event_data).
Proof. unfold handle_message_read. walk; advance_step. Qed.

Lemma advances_check_one env ws reader_id last_read_time message_id :
  moves advances (check_one_message env ws reader_id last_read_time message_id).
Proof. unfold check_one_message. walk; advance_step. Qed.

Lemma advances_last_read env ws event_data :
  moves advances (handle_update_last_read_time env ws event_data).
Proof.
  unfold handle_update_last_read_time, check_all_messages_for_auto_read.
  walk; try advance_step. apply advances_check_one.
Qed.

Lemma advances_tracker_code env o : moves advances (tracker_code env o).
Proof.
  destruct o; simpl;
    auto using advances_deliver, advances_broadcast, advances_auto_check,
      advances_message_read, advances_last_read.
Qed.

Lemma advances_track ops w : advances (w_state w) (w_state (track ops w)).
Proof.
  revert w. induction ops as [|[env o] ops IH]; intros w; simpl; [reflexivity|].
  etrans; [apply (advances_tracker_code env o w)|]. apply IH.
Qed.

(** *** What every reachable state satisfies *)

#[local] Instance keeps_preorder : PreOrder keeps.
Proof.
  split; [intros s Hs; exact Hs|].
  intros s1 s2 s3 H12 H23 H1. apply H23, H12, H1.
Qed.

Lemma keeps_of_advances {A} (m : M A) : moves advances m → moves keeps m.
Proof. intros Hm w Hs. by destruct (Hm w Hs). Qed.

Lemma keeps_same_tracking f :
  (∀ s, message_tracking (f s) = message_tracking s) → moves keeps (modify f).
Proof. intros Hf. apply (moves_modify keeps). intros s Hs mid i. rewrite Hf. apply Hs. Qed.

Lemma keeps_typing_event_loop env typing_user_id frame clients d :
  moves keeps (typing_event_loop env typing_user_id frame clients d).
Proof.
  revert d. induction clients as [|c clients IH]; intros d; simpl; walk; [|apply IH].
  unfold typing_event_step. walk.
Qed.

Lemma keeps_broadcast_typing_event env chat_id typing_user_id event_name :
  moves keeps (broadcast_typing_event env chat_id typing_user_id event_name).
Proof.
  unfold broadcast_typing_event. walk.
  - apply keeps_typing_event_loop.
  - by apply keeps_same_tracking.
Qed.

Ltac keep_step :=
  first [ apply keeps_same_tracking; reflexivity
        | apply keeps_broadcast_typing_event
        | apply keeps_of_advances;
          first [ apply advances_deliver | apply advances_broadcast
                | apply advances_message_read | apply advances_last_read ] ].

Lemma keeps_send_chat env ws event_data : moves keeps (handle_send_chat env ws event_data).
Proof.
  unfold handle_send_chat. walk; try keep_step.
  apply (moves_modify keeps). intros st Hst mid i. simpl.
  rewrite lookup_insert. case_decide; [|apply Hst]. intros [= <-]. by left.
Qed.

Lemma keeps_dispatch env ws ev : moves keeps (dispatch env ws ev).
Proof.
  destruct ev; simpl; walk; try apply keeps_send_chat;
    try (apply keeps_of_advances;
         first [apply advances_message_read | apply advances_last_read]).
  - unfold handle_login. walk; keep_step.
  - unfold handle_typing_start. walk; keep_step.
  - unfold handle_typing_stop. walk; keep_step.
  - unfold handle_status_check. walk.
Qed.

Lemma keeps_cleanup env ws : moves keeps (cleanup_connection env ws).
Proof.
  unfold cleanup_connection, cleanup_user. walk; try keep_step.
  apply (moves_modify keeps). intros st Hst mid i. simpl.
  rewrite lookup_fmap. destruct (message_tracking st !! mid) as [i0|] eqn:Hi0; [|done].
  simpl. intros [= <-]. simpl. by eapply Hst.
Qed.

Lemma keeps_step y i : status_known (tables y) → status_known (tables (step y i)).
Proof.
  intros Hs. destruct i as [ws|env ws ev|env ws error|env ws]; simpl.
  - destruct (decide (ws ∈ sys_seen y)); [done|]. unfold tables. simpl.
    intros mid i. apply Hs.
  - destruct (decide (ws ∈ sys_open y)); [|done]. unfold tables, after_turn, handle_frame.
    simpl. pose proof (keeps_dispatch env ws ev (sys_world y) Hs) as Hd.
    destruct (dispatch env ws ev (sys_world y)) as [[err|[|]] w'] eqn:Heq; simpl in *;
      try done; by apply (keeps_cleanup env ws w').
  - destruct (decide (ws ∈ sys_open y)); [|done].
    unfold tables, after_turn, handle_bad_frame. simpl.
    destruct (send_text_cases env ws error (sys_world y)) as [-> | ->]; simpl; [done|].
    by apply (keeps_cleanup env ws).
  - destruct (decide (ws ∈ sys_open y)); [|done]. unfold tables, after_turn. simpl.
    by apply (keeps_cleanup env ws).
Qed.

Lemma reachable_status_known y : reachable y → status_known (tables y).
Proof.
  intros [inputs <-]. unfold run.
  induction inputs as [|i inputs IH] using rev_ind; simpl.
  - intros mid i. unfold tables. simpl. by rewrite lookup_empty.
  - rewrite foldl_app. simpl. by apply keeps_step.
Qed.

(** In the tables of a running server every tracked status is "sent" or
    "delivered", and however many deliveries, broadcasts, automatic read
    checks, read confirmations and last-read updates follow, no tracked
    message is dropped, none changes its sender, receiver, timestamp or
    payload, no status goes back, and the sets of recipients, of
    delivered sockets and of readers only grow. *)
Theorem tracker_only_advances y ops :
  reachable y →
  let s := tables y in
  let s' := w_state (track ops (sys_world y)) in
  status_known s ∧ status_known s' ∧
  ∀ message_id i, message_tracking s !! message_id = Some i →
    ∃ i', message_tracking s' !! message_id = Some i' ∧
          sender_ws i' = sender_ws i ∧ sender_id i' = sender_id i ∧
          receiver_id i' = receiver_id i ∧ timestamp i' = timestamp i ∧
          message_data i' = message_data i ∧
          (status_rank (status i) ≤ status_rank (status i'))%nat ∧
          recipients i ⊆ recipients i' ∧
          delivered_to i ⊆ delivered_to i' ∧
          read_by i ⊆ read_by i'.
Proof.
  intros Hr. cbv zeta. pose proof (reachable_status_known y Hr) as Hs.
  destruct (advances_track ops (sys_world y) Hs) as [Hs' Hg].
  split; [done|]. split; [done|]. intros mid i Hi. apply (Hg mid i Hi).
Qed.

Lemma tracker_only_advances_witness :
  Legacy.status_known
    (Legacy.w_state
       (Legacy.track [(Legacy.calm, Legacy.ManualRead 2%positive {["id" := "m1"]});
                      (Legacy.calm, Legacy.Deliver "m1" "bob" ∅)]
          (Legacy.sys_world Legacy.one_message))).
Proof.
  refine (proj1 (proj2 (tracker_only_advances one_message
                          [(calm, ManualRead 2%positive {["id" := "m1"]});
                           (calm, Deliver "m1" "bob" ∅)] _))).
  exists [Accept 1%positive; Accept 2%positive;
          Frame calm 1%positive (EvLogin {["token" := "tok-alice"]});
          Frame calm 2%positive (EvLogin {["token" := "tok-bob"]});
          Frame calm 1%positive
            (EvSendChat (<["id" := "m1"]> (<["receiver_id" := "bob"]>
                           ({["message" := "hello"]} : gmap string string))))].
  reflexivity.
Defined.

(** *** The automatic read check *)

Lemma auto_check_result env recipient_ws message_id ts w :
  ∃ log',
    auto_check_read_status env recipient_ws message_id ts w
    = (inr tt,
       World (if auto_read_due env (w_state w) recipient_ws message_id ts
              then with_message_tracking (alter (add_read recipient_ws) message_id) (w_state w)
              else w_state w) log').
Proof.
  unfold auto_check_read_status, auto_read_due. rewrite bind_get.
  destruct (user_last_read_time (w_state w) !! recipient_ws) as [last|];
    [|destruct w; by eexists].
  destruct (message_tracking (w_state w) !! message_id) as [info|] eqn:Hinfo;
    [|destruct w; by eexists].
  destruct (truthy (authenticated_users (w_state w) !! recipient_ws)) as [rid|];
    [|destruct w; by eexists].
  destruct (decide (recipient_ws ∈ read_by info)) as [Hin|Hin].
  { rewrite bool_decide_eq_true_2 by done. simpl.
    destruct (iso_time env ts), (iso_time env last); destruct w; by eexists. }
  rewrite bool_decide_eq_false_2 by done. simpl.
  unfold try_catch, parse_iso.
  destruct (iso_time env ts) as [m|]; [|destruct w; by eexists].
  rewrite (bind_ret_l _). 
  destruct (iso_time env last) as [l|]; [|destruct w; by eexists].
  rewrite (bind_ret_l _). unfold dt_ge.
  destruct (Bool.eqb l.1 m.1); [|destruct w; by eexists].
  rewrite (bind_ret_l _). simpl.
  destruct (m.2 <=? l.2)%Z; [|destruct w; by eexists].
  rewrite (update_info_tracked _ _ _ _ _ Hinfo), bind_get. cbn [w_state].
  assert (with_message_tracking (<[message_id := add_read recipient_ws info]>) (w_state w)
          = with_message_tracking (alter (add_read recipient_ws) message_id) (w_state w)) as ->.
  { unfold with_message_tracking. f_equal. apply map_eq. intros i.
    destruct (decide (message_id = i)) as [<-|Hi].
    - by rewrite lookup_insert_eq, lookup_alter_eq, Hinfo.
    - by rewrite lookup_insert_ne, lookup_alter_ne. }
  destruct (decide (sender_ws info ∈ _)); [|by eexists].
  match goal with
  | |- context [send_text ?e ?c ?frame ?w0] =>
      destruct (send_text_cases e c frame w0) as [-> | ->]; by eexists
  end.
Qed.

(** [auto_check_read_status] never raises.  It adds the recipient to
    [read_by] of the message exactly when the recipient has a last-read
    time, the message is tracked, the recipient is logged in and not yet
    in [read_by], both timestamps parse, both or neither carry a time
    zone, and the last-read time is not before the message's; otherwise
    the tables stay as they are.  The status of the message is never
    touched. *)
Theorem auto_check_read_status_outcome env recipient_ws message_id message_timestamp w :
  let r := auto_check_read_status env recipient_ws message_id message_timestamp w in
  r.1 = inr tt ∧
  w_state r.2
  = if auto_read_due env (w_state w) recipient_ws message_id message_timestamp
    then with_message_tracking (alter (add_read recipient_ws) message_id) (w_state w)
    else w_state w.
Proof.
  cbv zeta.
  by destruct (auto_check_result env recipient_ws message_id message_timestamp w)
    as (log' & ->).
Qed.

(** *** Direct delivery *)

Lemma bind_send {A} env ws frame (k : unit → M A) w :
  bind (send_text env ws frame) k w
  = if tx env (List.length (w_log w)) ws
    then k tt (World (w_state w) (w_log w ++ [Attempt ws frame true]))
    else (inl TransportError, World (w_state w) (w_log w ++ [Attempt ws frame false])).
Proof. unfold bind, send_text. by destruct (tx env _ _). Qed.

Lemma tracking_insert_lookup message_id (i : MessageInfo) s :
  message_tracking (with_message_tracking (<[message_id := i]>) s) !! message_id = Some i.
Proof. unfold with_message_tracking. simpl. by rewrite lookup_insert_eq. Qed.

Lemma tracking_insert_insert message_id (i j : MessageInfo) s :
  with_message_tracking (<[message_id := j]>) (with_message_tracking (<[message_id := i]>) s)
  = with_message_tracking (<[message_id := j]>) s.
Proof. unfold with_message_tracking. simpl. by rewrite insert_insert_eq. Qed.

Lemma tracking_alter_insert message_id f (i : MessageInfo) s :
  with_message_tracking (alter f message_id) (with_message_tracking (<[message_id := i]>) s)
  = with_message_tracking (<[message_id := f i]>) s.
Proof. unfold with_message_tracking. simpl. by rewrite alter_insert_eq. Qed.

(** [deliver_to_user] on a tracked message.  With the receiver offline
    the tables do not change: the sender is told "sent / user_offline",
    and a failure of that send escapes to the caller.  With the receiver
    online nothing escapes: if the frame reaches the receiver's socket,
    that socket joins [recipients] and [delivered_to], the status
    becomes "delivered", and [read_by] gains at most that socket; if it
    does not, the tables stay as they are and the sender is told
    nothing. *)
Theorem deliver_to_user_outcome env message_id receiver_id message_data w message_info :
  message_tracking (w_state w) !! message_id = Some message_info →
  let r := deliver_to_user env message_id receiver_id message_data w in
  match user_connections (w_state w) !! receiver_id with
  | None =>
      w_state r.2 = w_state w ∧
      ∃ frame ok, w_log r.2 = w_log w ++ [Attempt (sender_ws message_info) frame ok] ∧
                  r.1 = if ok then inr tt else inl TransportError
  | Some receiver_ws =>
      r.1 = inr tt ∧
      if tx env (List.length (w_log w)) receiver_ws
      then ∃ auto_read : bool,
             w_state r.2
             = with_message_tracking
                 (<[message_id :=
                      (if auto_read then add_read receiver_ws else id)
                        (set_status "delivered"
                           (add_delivered receiver_ws
                              (add_recipient receiver_ws message_info)))]>)
                 (w_state w)
      else w_state r.2 = w_state w ∧
           ∀ a, a ∈ drop (List.length (w_log w)) (w_log r.2) → att_ws a = receiver_ws
  end.
Proof.
  intros Hinfo. cbv zeta. unfold deliver_to_user. rewrite bind_get, Hinfo.
  destruct (user_connections (w_state w) !! receiver_id) as [receiver_ws|].
  - unfold try_catch. rewrite bind_send.
    destruct (tx env (List.length (w_log w)) receiver_ws).
    + rewrite (update_info_tracked _ _ _ (World (w_state w) _) _ Hinfo).
      rewrite (update_info_tracked _ _ _ (World _ _) _ (tracking_insert_lookup _ _ _)).
      cbn [w_state w_log]. rewrite tracking_insert_insert.
      rewrite (update_info_tracked _ _ _ (World _ _) _ (tracking_insert_lookup _ _ _)).
      cbn [w_state w_log]. rewrite tracking_insert_insert.
      rewrite bind_send. cbn [w_state w_log].
      destruct (tx env _ (sender_ws message_info)).
      * destruct (message_data !! "timestamp") as [ts|].
        -- match goal with
           | |- context [auto_check_read_status ?e ?c ?m ?t ?w0] =>
               destruct (auto_check_result e c m t w0) as (log' & ->)
           end.
           cbn [fst snd w_state]. split; [done|].
           destruct (auto_read_due _ _ _ _ _).
           ++ exists true. by rewrite tracking_alter_insert.
           ++ by exists false.
        -- cbn. split; [done|]. by exists false.
      * cbn. split; [done|]. by exists false.
    + cbn. split; [done|]. split; [done|].
      rewrite drop_app_length. intros a Ha. apply list_elem_of_singleton in Ha. by subst.
  - destruct (send_text_cases env (sender_ws message_info)
                (PDict [("event_name", PStr "message_status");
                        ("event_data", PDict [("id", PStr message_id);
                                              ("receiver_id", PStr receiver_id);
                                              ("status", PStr "sent");
                                              ("reason", PStr "user_offline")])]) w)
      as [-> | ->]; cbn; (split; [done|]).
    + by eexists _, true.
    + by eexists _, false.
Qed.

Lemma deliver_to_user_outcome_witness :
  Legacy.w_state (Legacy.deliver_to_user Legacy.calm "m1" "carol" ∅
                    (Legacy.sys_world Legacy.one_message)).2
  = Legacy.tables Legacy.one_message.
Proof.
  refine (proj1 (deliver_to_user_outcome calm "m1" "carol" ∅ (sys_world one_message) _
                   eq_refl)).
Defined.

(** *** Typing marks and the end of a connection *)

(** A user who starts typing in one chat and then in another, and whose
    connection then ends, is left marked as typing in the first chat:
    [cleanup_connection] clears only the mark of the chat recorded last,
    and nothing of the user is left by which a later event could clear
    the first. *)
Theorem stale_typing_mark_survives_cleanup env ws w user_id d1 d2 chat1 chat2 :
  authenticated_users (w_state w) !! ws = Some user_id →
  truthy (d1 !! "chat_id") = Some chat1 →
  truthy (d2 !! "chat_id") = Some chat2 →
  chat1 ≠ chat2 →
  let w1 := (handle_typing_start env ws d1 w).2 in
  let w2 := (handle_typing_start env ws d2 w1).2 in
  let w3 := (cleanup_connection env ws w2).2 in
  user_id ∈ Registry.members (typing_users (w_state w3)) chat1 ∧
  (user_id ∉ Registry.members (typing_users (w_state w3)) chat2) ∧
  user_typing_in (w_state w3) !! user_id = None ∧
  authenticated_users (w_state w3) !! ws = None ∧
  user_connections (w_state w3) !! user_id = None.
Proof.
  intros Hau H1 H2 Hne. cbv zeta.
  destruct (handle_typing_start_state env ws d1 w user_id chat1 Hau H1) as (D1 & E1).
  set (w1 := (handle_typing_start env ws d1 w).2) in *.
  assert (authenticated_users (w_state w1) !! ws = Some user_id) as Hau1
    by (by rewrite E1).
  destruct (handle_typing_start_state env ws d2 w1 user_id chat2 Hau1 H2) as (D2 & E2).
  set (w2 := (handle_typing_start env ws d2 w1).2) in *.
  destruct (cleanup_connection_result env ws w2) as (D & log' & ->).
  cbn [snd w_state]. unfold cleaned. rewrite E2. cbn.
  rewrite Hau1. cbn. rewrite lookup_insert_eq. cbn.
  rewrite E1. cbn.
  rewrite !lookup_delete_eq.
  rewrite !members_discard_from, !members_add_to.
  repeat split.
  - repeat case_decide; try congruence.
    rewrite elem_of_union, elem_of_singleton. by right.
  - repeat case_decide; try congruence.
    rewrite elem_of_difference, elem_of_singleton. tauto.
Qed.

Lemma stale_typing_mark_survives_cleanup_witness :
  let w := Legacy.sys_world Legacy.two_users in
  let w1 := (Legacy.handle_typing_start Legacy.calm 1%positive {["chat_id" := "c1"]} w).2 in
  let w2 := (Legacy.handle_typing_start Legacy.calm 1%positive {["chat_id" := "c2"]} w1).2 in
  let w3 := (Legacy.cleanup_connection Legacy.calm 1%positive w2).2 in
  "alice" ∈ Registry.members (Legacy.typing_users (Legacy.w_state w3)) "c1".
Proof.
  refine (proj1 (stale_typing_mark_survives_cleanup calm 1%positive (sys_world two_users)
                   "alice" {["chat_id" := "c1"]} {["chat_id" := "c2"]} "c1" "c2" _ _ _ _));
    [reflexivity|reflexivity|reflexivity|discriminate].
Defined.

(** *** A dead client during a broadcast *)

#[local] Instance same_users_preorder : PreOrder same_users.
Proof.
  split; [by intros s|]. unfold same_users. intros s1 s2 s3 H1 H2. congruence.
Qed.

Lemma same_users_update_info message_id f : moves same_users (update_info message_id f).
Proof. apply (moves_modify same_users). by intros s. Qed.

Lemma same_users_auto_check env ws message_id ts :
  moves same_users (auto_check_read_status env ws message_id ts).
Proof.
  unfold auto_check_read_status, parse_iso, dt_ge.
  walk; try apply same_users_update_info.
Qed.

Lemma same_users_broadcast_one env message_id message_data client_ws :
  moves same_users (broadcast_one env message_id message_data client_ws).
Proof.
  unfold broadcast_one.
  walk; try apply same_users_update_info; try apply same_users_auto_check.
  apply (moves_modify same_users). by intros s.
Qed.

Lemma broadcast_one_dead env message_id message_data client_ws w :
  (∀ n, tx env n client_ws = false) →
  (broadcast_one env message_id message_data client_ws w).1 = inr false.
Proof.
  intros Hdead. unfold broadcast_one, try_catch. rewrite bind_send, Hdead. reflexivity.
Qed.

Lemma broadcast_one_returns env message_id message_data client_ws w :
  ∃ sent, (broadcast_one env message_id message_data client_ws w).1 = inr sent.
Proof.
  unfold broadcast_one, try_catch.
  match goal with |- context [bind ?m ?k w] => destruct (bind m k w) as [[e|sent] w'] end;
    by eexists.
Qed.

Lemma broadcast_loop_dead env sender message_id message_data clients n w client other :
  client ∈ clients →
  client ≠ sender →
  authenticated_users (w_state w) !! client = Some other →
  (∀ k, tx env k client = false) →
  (broadcast_loop env sender message_id message_data clients n w).1 = inl RuntimeError.
Proof.
  intros Hin Hne Hau Hdead. revert n w Hau.
  induction clients as [|c clients IH]; intros n w Hau; [by apply elem_of_nil in Hin|].
  simpl. rewrite bind_get.
  destruct (decide (c = client)) as [->|Hc].
  - rewrite decide_True by (split; [done|by apply elem_of_dom]).
    unfold bind.
    pose proof (broadcast_one_dead env message_id message_data client w Hdead) as Hb.
    destruct (broadcast_one env message_id message_data client w) as [[e|sent] w1];
      simpl in Hb; [done|]. by inversion Hb.
  - assert (client ∈ clients) as Hin'.
    { apply elem_of_cons in Hin as [->|]; [done|done]. }
    case_decide; [|by apply IH].
    unfold bind.
    pose proof (same_users_broadcast_one env message_id message_data c w) as Hsame.
    destruct (broadcast_one_returns env message_id message_data c w) as (sent & Hb).
    destruct (broadcast_one env message_id message_data c w) as [[e|sent'] w1];
      simpl in Hb, Hsame; [done|].
    inversion Hb; subst sent'. destruct sent; [|done].
    apply IH; [done|]. unfold same_users in Hsame. by rewrite Hsame.
Qed.

(** One dead client ends the sender's session.  When a logged-in socket
    broadcasts a message (no [receiver_id]) while some other logged-in
    client in [connected_clients] has a dead transport,
    [handle_send_chat] raises: [broadcast_message] discards the client
    from the set it is iterating over, and the [for] statement fails.
    The handler loop of the sender ends and [cleanup_connection] logs
    the sender out. *)
Theorem dead_client_ends_sender_session env ws event_data w sender message_id client other :
  authenticated_users (w_state w) !! ws = Some sender →
  truthy (event_data !! "id") = Some message_id →
  truthy (event_data !! "receiver_id") = None →
  client ∈ connected_clients (w_state w) →
  client ≠ ws →
  authenticated_users (w_state w) !! client = Some other →
  (∀ n, tx env n client = false) →
  let r := handle_frame env ws (EvSendChat event_data) w in
  r.1 = false ∧
  authenticated_users (w_state r.2) !! ws = None ∧
  (ws ∉ connected_clients (w_state r.2)).
Proof.
  intros Hau Hid Hrecv Hin Hne Hauc Hdead. cbv zeta.
  assert (∃ e w1, handle_send_chat env ws event_data w = (inl e, w1)) as (e & w1 & Hsend).
  { unfold handle_send_chat. rewrite bind_get, Hau, Hid.
    rewrite bind_modify, bind_send. cbn [w_state w_log].
    destruct (tx env (List.length (w_log w)) ws); [|by eexists _, _].
    rewrite Hrecv. unfold broadcast_message. rewrite bind_get. cbn [w_state].
    rewrite tracking_insert_lookup. unfold bind at 1.
    match goal with
    | |- context [broadcast_loop ?e ?s ?m ?d ?l ?n ?w0] =>
        pose proof (broadcast_loop_dead e s m d l n w0 client other) as Hloop;
        destruct (broadcast_loop e s m d l n w0) as [[err|k] w2]
    end.
    - by eexists _, _.
    - exfalso. cbn in Hloop. 
      assert (@inr exn nat k = inl RuntimeError) as Hk; [|done].
      apply Hloop; [|done|done|done]. by apply elem_of_elements. }
  unfold handle_frame, dispatch, bind. rewrite Hsend.
  destruct (cleanup_connection_result env ws w1) as (D & log' & ->).
  cbn [fst snd w_state]. split; [done|]. split.
  - unfold cleaned. destruct (authenticated_users (w_state w1) !! ws) as [u|] eqn:Hu.
    + destruct (user_typing_in (w_state w1) !! u); cbn; apply lookup_delete_eq.
    + by cbn.
  - unfold cleaned. destruct (authenticated_users (w_state w1) !! ws) as [u|].
    + destruct (user_typing_in (w_state w1) !! u); cbn; apply socket_gone.
    + cbn. apply socket_gone.
Qed.

Lemma dead_client_ends_sender_session_witness :
  (Legacy.handle_frame Legacy.bob_down 1%positive (Legacy.EvSendChat {["id" := "m2"]})
     (Legacy.sys_world Legacy.two_users)).1 = false.
Proof.
  refine (proj1 (dead_client_ends_sender_session bob_down 1%positive {["id" := "m2"]}
                   (sys_world two_users) "alice" "m2" 2%positive "bob" _ _ _ _ _ _ _)).
  - reflexivity.
  - reflexivity.
  - reflexivity.
  - apply (bool_decide_unpack _); vm_compute; exact I.
  - discriminate.
  - reflexivity.
  - intros n. reflexivity.
Defined.

(** *** Message ids are not protected *)

(** A [send_chat] of a logged-in socket with a non-empty id always
    leaves a record under that id whose sender is that socket and its
    user, with the receiver and the timestamp of this event: whatever
    was tracked under the id before, also the message of somebody else,
    is replaced. *)
Theorem send_chat_takes_over_tracking y env ws event_data sender message_id :
  reachable y →
  authenticated_users (tables y) !! ws = Some sender →
  truthy (event_data !! "id") = Some message_id →
  ∃ i, message_tracking (w_state (handle_send_chat env ws event_data (sys_world y)).2)
         !! message_id = Some i ∧
       sender_ws i = ws ∧ sender_id i = sender ∧
       receiver_id i = event_data !! "receiver_id" ∧
       timestamp i = default (now_iso env) (event_data !! "timestamp").
Proof.
  intros Hy Hau Hid. unfold tables in Hau.
  unfold handle_send_chat. rewrite bind_get, Hau, Hid. rewrite bind_modify.
  match goal with
  | |- context [bind ?m ?k ?w1] =>
      assert (moves advances (bind m k)) as Hrest;
      [|specialize (Hrest w1); set (w2 := (bind m k w1).2) in *]
  end.
  { walk; auto using advances_deliver, advances_broadcast. }
  cbn [w_state] in Hrest.
  destruct Hrest as [_ Hgrow].
  { intros m i. unfold with_message_tracking. cbn [message_tracking].
    rewrite lookup_insert. case_decide.
    - intros [= <-]. by left.
    - apply (reachable_status_known y Hy). }
  destruct (Hgrow message_id _ (tracking_insert_lookup _ _ _))
    as (i & Hi & E1 & E2 & E3 & E4 & _).
  exists i. by rewrite Hi, E1, E2, E3, E4.
Qed.

Lemma send_chat_takes_over_tracking_witness :
  ∃ i, Legacy.message_tracking
         (Legacy.w_state (Legacy.handle_send_chat Legacy.calm 2%positive {["id" := "m1"]}
                            (Legacy.sys_world Legacy.one_message)).2) !! "m1" = Some i ∧
       Legacy.sender_id i = "bob".
Proof.
  destruct (send_chat_takes_over_tracking one_message calm 2%positive {["id" := "m1"]}
              "bob" "m1") as (i & Hi & _ & Hs & _).
  - exists [Accept 1%positive; Accept 2%positive;
            Frame calm 1%positive (EvLogin {["token" := "tok-alice"]});
            Frame calm 2%positive (EvLogin {["token" := "tok-bob"]});
            Frame calm 1%positive
              (EvSendChat (<["id" := "m1"]> (<["receiver_id" := "bob"]>
                             ({["message" := "hello"]} : gmap string string))))].
    reflexivity.
  - reflexivity.
  - reflexivity.
  - by exists i.
Defined.

End LegacyFacts.

(** ** The token helpers *)

Section TokenHelperFacts.

Import Auth.

(** As the repository stands no token helper of [WebSocketService] ever
    accepts a token: [authenticate_websocket_connection] answers
    [(False, None, message)], where the message is the one for a missing
    token if the token is empty and "Authentication service error"
    otherwise; [authenticate_user] answers [None]; and
    [refresh_user_session] answers [False].  The name [verify_token] is
    unbound in the module, and each [try] block swallows the error. *)
Theorem token_helpers_fail_closed get_user_by_id update_last_active jwt_decode
    (user_id token : string) :
  authenticate_websocket_connection get_user_by_id jwt_decode token
  = (false, PNone,
     Some (if String.eqb token "" then "Token is required for WebSocket connection"
           else "Authentication service error")) ∧
  authenticate_user get_user_by_id jwt_decode token = PNone ∧
  refresh_user_session update_last_active jwt_decode user_id token = false.
Proof.
  unfold authenticate_websocket_connection, authenticate_with, authenticate_body,
    authenticate_user, authenticate_user_with, refresh_user_session, refresh_with.
  rewrite !verify_token_unbound.
  by destruct (String.eqb token "").
Qed.

(** [refresh_user_session] cannot return [True] however the name
    [verify_token] is bound and whatever the token holds: the last step
    of its [try] block calls [update_last_active], which [UserService]
    does not have. *)
Theorem refresh_user_session_never_succeeds update_last_active scope verify
    (user_id token : string) :
  refresh_with update_last_active scope verify user_id token = false.
Proof.
  unfold refresh_with.
  destruct (resolve scope "verify_token" verify) as [e|f]; [done|].
  destruct (negb (py_truthy (f token))); [done|].
  destruct (py_get (f token) "sub" PNone) as [e|sub]; [done|].
  by destruct (py_ne_str sub user_id).
Qed.

(** Restoring the import would not make authentication work:
    [verify_token] of auth/dependencies.py returns the subject of the
    token, not its payload, and the helpers call [.get("sub")] on what
    it returns.  Unless the subject is itself a dictionary, the token is
    refused. *)
Theorem restored_import_still_refuses get_user_by_id jwt_decode (token : string) :
  (∀ d, verify_token jwt_decode token ≠ PDict d) →
  let r := authenticate_with get_user_by_id globals_with_import
             (verify_token jwt_decode) token in
  r.1.1 = false ∧ r.1.2 = PNone ∧
  authenticate_user_with get_user_by_id globals_with_import
    (verify_token jwt_decode) token = PNone.
Proof.
  intros Hsub. cbv zeta.
  unfold authenticate_with, authenticate_body, authenticate_user_with.
  rewrite !resolve_with_import.
  destruct (String.eqb token ""); cbn [fst snd];
    destruct (verify_token jwt_decode token) as [|b|z|z|s|l|d] eqn:Hv;
    try (by destruct (Hsub d));
    cbn [py_get]; by repeat (destruct (negb _); cbn [fst snd]; try done).
Qed.

Lemma restored_import_still_refuses_witness :
  (Auth.authenticate_with Auth.everyone Auth.globals_with_import
     (Auth.verify_token Auth.admin_decoder) "admin-token").1.1 = false.
Proof.
  refine (proj1 (restored_import_still_refuses everyone admin_decoder "admin-token" _)).
  intros d. discriminate.
Defined.

End TokenHelperFacts.

(** ** Framing *)

Section FramingFacts.

Import Codec.

Lemma endswith_append body suffix : endswith (body ++ suffix)%string suffix = true.
Proof. apply endswith_spec. by exists body. Qed.

Lemma strip_suffix_append body : strip_suffix (body ++ SUFFIX)%string = body.
Proof.
  unfold strip_suffix. rewrite length_append.
  replace (String.length body + String.length SUFFIX - String.length SUFFIX)%nat
    with (String.length body) by lia.
  induction body as [|a body IH]; simpl; [done|]. by rewrite IH.
Qed.

(** Framing round trip: for a frame made of a body followed by the
    suffix, both decoders hand exactly the body to [json.loads], and
    [parse_event] returns what [json.loads] made of it, with no error;
    this holds also when the body itself ends with the suffix. *)
Theorem suffix_framing_round_trip json_loads body :
  json_calls (parse_event json_loads (body ++ SUFFIX)%string) = [body] ∧
  json_calls (parse_event_with_suffix json_loads (body ++ SUFFIX)%string) = [body] ∧
  ∀ event, json_loads body = inr event →
           outcome (parse_event json_loads (body ++ SUFFIX)%string) = Returned event PNone.
Proof.
  unfold parse_event, parse_event_with_suffix.
  rewrite endswith_append, strip_suffix_append. cbn [negb].
  split; [|split].
  - by destruct (json_loads body) as [[|]|].
  - destruct (json_loads body) as [[|]|[]]; try done.
    by repeat (destruct (negb _)).
  - by intros event ->.
Qed.

(** [parse_event_with_suffix] never lets an exception out and returns
    exactly one of an event and an error.  A returned event is a
    dictionary that has the keys [event_name] and [event_data]; a
    returned error carries the raw text under [data.received]. *)
Theorem parse_event_with_suffix_shape json_loads raw :
  match outcome (parse_event_with_suffix json_loads raw) with
  | Raised _ => False
  | Returned event error =>
      (error = PNone ∧
       ∃ d, event = PDict d ∧ has_key d "event_name" = true ∧ has_key d "event_data" = true) ∨
      (event = PNone ∧ received_text error = Some raw)
  end.
Proof.
  unfold parse_event_with_suffix.
  destruct (negb (endswith raw SUFFIX)); [by right|].
  destruct (json_loads (strip_suffix raw)) as [[|text]|[]]; try (by right).
  destruct (has_key d "event_name") eqn:Hn; cbn [negb]; [|by right].
  destruct (has_key d "event_data") eqn:Hd; cbn [negb outcome]; left; (split; [done|]).
  - by exists d.
  - eexists. split; [done|]. unfold has_key in *. rewrite !existsb_app, Hn. simpl.
    split; [done|]. by rewrite orb_true_r.
Qed.
End FramingFacts.
